(** * zenhub-tools: the milestone report of [src/index.js]

    A shallow embedding of the synchronous part of [main] (lines 133-204 of
    [src/index.js]): the board index, the classification of issues into
    pipelines, the per-pipeline milestone totals and the lines written to the
    console.  The network calls that produce [board] and [issues] are inputs.

    Conventions of the embedding.
    - JavaScript objects used as records are Rocq records; the object
      [repoIssuePipelineMap], used as a dictionary with string keys, is a
      [gmap string nat].  Its keys all contain a dot, so none of them is a
      property inherited from [Object.prototype].
    - The array [richPipelines] is a list, read with [!!] and written with
      [<[_:=_]>]; reading a position outside the array gives [undefined] in
      JavaScript and the property access on it throws, which is [None] here.
    - Repository ids and issue numbers are natural numbers ([N]), printed in
      decimal by a template literal.
    - A point estimate is [undefined] (the field is absent), [null] or a
      number.  Numbers are IEEE 754 double precision values, as specified by
      [SpecFloat] for 53 bits of precision: signed zeros, infinities, [NaN]
      and finite values [m * 2 ^ e]; [+] rounds to nearest, ties to even,
      and a number is printed with the shortest digits that denote it.
    - Every call of [console.log] appends one entry to a list of strings. *)

From stdpp Require Import gmap strings list fin_maps pretty.
From Stdlib Require Import ZArith Ascii Floats.SpecFloat.

Local Open Scope string_scope.
Local Open Scope list_scope.

(** ** The fragment of JavaScript values the report computes with *)

Module Js.

(** Double precision: 53 bits of mantissa, exponents below 1024. *)
Definition prec : Z := 53.
Definition emax : Z := 1024.

Definition number : Type := spec_float.

Definition NaN : number := S754_nan.

(** The number of an integer literal: the double nearest to [z]. *)
Definition ofZ (z : Z) : number := binary_normalize prec emax z 0 false.

(** [x / y], used to write the numbers of decimal literals. *)
Definition div_number (x y : number) : number := SFdiv prec emax x y.

Inductive value : Type :=
| Undefined
| Null
| Number (n : number).

(** [ToNumber]: [undefined] becomes [NaN], [null] becomes [+0]. *)
Definition ToNumber (v : value) : number :=
  match v with
  | Undefined => NaN
  | Null => S754_zero false
  | Number n => n
  end.

(** [x + y] on numbers. *)
Definition add_number (x y : number) : number := SFadd prec emax x y.

(** [x + y] on values none of which is a string or an object. *)
Definition add (x y : value) : value :=
  Number (add_number (ToNumber x) (ToNumber y)).

(** *** [Number::toString]

    For a finite number [v] other than zero the digits printed are those of
    the integer [s] with the fewest digits [k] such that [s * 10 ^ (n - k)]
    is rounded to [v], the nearest to [v] when there are several; they are
    laid out according to [n], with an exponent from [10 ^ 21] on and below
    [10 ^ -6]. *)

Fixpoint zeros (n : nat) : string :=
  match n with
  | O => ""
  | S n' => String "0" (zeros n')
  end.

(** [s] without the zeros at its end. *)
Fixpoint stripZeros (s : string) : string :=
  match s with
  | EmptyString => EmptyString
  | String c s' =>
      match stripZeros s' with
      | EmptyString => if Ascii.eqb c "0" then EmptyString else String c EmptyString
      | r => String c r
      end
  end.

Definition digitsOf (z : Z) : string := pretty (Z.to_N z).

(** The value [m * 2 ^ e] when it is an integer. *)
Definition integerOf (m : positive) (e : Z) : option Z :=
  if (0 <=? e)%Z then Some (Zpos m * 2 ^ e)%Z
  else if (Zpos m mod 2 ^ (- e) =? 0)%Z then Some (Zpos m / 2 ^ (- e))%Z
  else None.

(** [s * 10 ^ p] compared with the fraction [num / den]. *)
Definition compareDecimal (s p num den : Z) : comparison :=
  if (0 <=? p)%Z then (s * 10 ^ p * den ?= num)%Z
  else (s * den ?= num * 10 ^ (- p))%Z.

(** [s * 10 ^ p] is rounded to the number whose neighbours are halfway at
    [lo / den] and [hi / den]; the bounds themselves are rounded to it when
    its mantissa is even. *)
Definition roundsTo (mEven : bool) (lo hi den s p : Z) : bool :=
  match compareDecimal s p lo den with
  | Gt => true | Eq => mEven | Lt => false
  end
  && match compareDecimal s p hi den with
     | Lt => true | Eq => mEven | Gt => false
     end.

(** The least [j] from the given one with [den <= num * 10 ^ j]. *)
Fixpoint firstPower (fuel : nat) (num den j : Z) : Z :=
  match fuel with
  | O => j
  | S fuel' =>
      if (den <=? num * 10 ^ j)%Z then j else firstPower fuel' num den (j + 1)%Z
  end.

(** The [n] with [10 ^ (n - 1) <= num / den < 10 ^ n]. *)
Definition decimalExponent (num den : Z) : Z :=
  if (den <=? num)%Z then Z.of_nat (String.length (digitsOf (num / den)))
  else (1 - firstPower 400 num den 1)%Z.

(** The search for the fewest digits, from [k] digits on: the two multiples
    of [10 ^ (n - k)] around [v / den] are tried. *)
Fixpoint shortest (fuel : nat) (mEven : bool) (v lo hi den n k : Z) : Z * Z :=
  let p := (n - k)%Z in
  let sf := if (0 <=? p)%Z then (v / (den * 10 ^ p))%Z
            else (v * 10 ^ (- p) / den)%Z in
  let below := if (0 <=? p)%Z then (v - sf * 10 ^ p * den)%Z
               else (v * 10 ^ (- p) - sf * den)%Z in
  let above := if (0 <=? p)%Z then ((sf + 1) * 10 ^ p * den - v)%Z
               else ((sf + 1) * den - v * 10 ^ (- p))%Z in
  let nearest :=
    match (below ?= above)%Z with
    | Lt => sf
    | Gt => (sf + 1)%Z
    | Eq => if Z.even sf then sf else (sf + 1)%Z
    end in
  match roundsTo mEven lo hi den sf p, roundsTo mEven lo hi den (sf + 1) p with
  | true, true => (nearest, p)
  | true, false => (sf, p)
  | false, true => ((sf + 1)%Z, p)
  | false, false =>
      match fuel with
      | O => (nearest, p)
      | S fuel' => shortest fuel' mEven v lo hi den n (k + 1)%Z
      end
  end.

(** The layout of the digits of a number between [10 ^ (n - 1)] and
    [10 ^ n]. *)
Definition formatDecimal (digits : string) (n : Z) : string :=
  let k := Z.of_nat (String.length digits) in
  if ((k <=? n) && (n <=? 21))%Z then digits +:+ zeros (Z.to_nat (n - k))
  else if ((0 <? n) && (n <=? 21))%Z then
    String.substring 0 (Z.to_nat n) digits +:+ "."
      +:+ String.substring (Z.to_nat n) (Z.to_nat (k - n)) digits
  else if ((-6 <? n) && (n <=? 0))%Z then
    "0." +:+ zeros (Z.to_nat (- n)) +:+ digits
  else
    let e := (n - 1)%Z in
    let exponent := (if (0 <=? e)%Z then "+" else "-") +:+ digitsOf (Z.abs e) in
    if (k =? 1)%Z then digits +:+ "e" +:+ exponent
    else String.substring 0 1 digits +:+ "."
           +:+ String.substring 1 (Z.to_nat (k - 1)) digits
           +:+ "e" +:+ exponent.

(** The shortest decimal of [m * 2 ^ e]; all quantities are scaled by
    [2 ^ (2 - e)] so that the halfway points are integers over [den]. *)
Definition shortestDecimal (m : positive) (e : Z) : string :=
  let scale := (e - 2)%Z in
  let up := if (0 <=? scale)%Z then (2 ^ scale)%Z else 1%Z in
  let den := if (0 <=? scale)%Z then 1%Z else (2 ^ (- scale))%Z in
  let v := (4 * Zpos m * up)%Z in
  let hi := ((4 * Zpos m + 2) * up)%Z in
  let lo := if ((Zpos m =? 2 ^ 52) && (-1074 <? e))%Z
            then ((4 * Zpos m - 1) * up)%Z
            else ((4 * Zpos m - 2) * up)%Z in
  let n := decimalExponent v den in
  let '(s, p) := shortest 17 (Z.even (Zpos m)) v lo hi den n 1 in
  let all := digitsOf s in
  formatDecimal (stripZeros all) (Z.of_nat (String.length all) + p).

(** An integer up to [2 ^ 53] is denoted by no decimal shorter than its own
    digits, which are printed; other values go through the search. *)
Definition magnitude_to_string (m : positive) (e : Z) : string :=
  match integerOf m e with
  | Some z => if (z <=? 2 ^ 53)%Z then digitsOf z else shortestDecimal m e
  | None => shortestDecimal m e
  end.

Definition number_to_string (n : number) : string :=
  match n with
  | S754_nan => "NaN"
  | S754_zero _ => "0"
  | S754_infinity s => (if s then "-" else "") +:+ "Infinity"
  | S754_finite s m e => (if s then "-" else "") +:+ magnitude_to_string m e
  end.

(** [ToString], as applied by a template literal. *)
Definition ToString (v : value) : string :=
  match v with
  | Undefined => "undefined"
  | Null => "null"
  | Number n => number_to_string n
  end.

End Js.

(** ** The input: board and issues *)

(** An entry [{ repo_id, issue_number }] of a board pipeline. *)
Record membership : Type := {
  ref_repo_id : N;
  issue_number : N
}.

(** A pipeline [{ name, issues }] of the board. *)
Record pipeline : Type := {
  pipeline_name : string;
  pipelineIssues : list membership
}.

Record Board : Type := {
  pipelines : list pipeline
}.

Record Milestone : Type := {
  milestone_title : string
}.

Record Assignee : Type := {
  login : string
}.

Record issue : Type := {
  repo_id : N;
  repo_name : string;
  number : N;
  title : string;
  state : string;
  pull_request : bool;
  milestone : option Milestone;
  estimate : Js.value;
  assignee : option Assignee;
  html_url : string
}.

(** An element [{ name, issues }] of [richPipelines]. *)
Record richPipeline : Type := {
  name : string;
  issues : list issue
}.

Record Stats : Type := {
  open : Js.number;
  closed : Js.number
}.

(** ** Lines 133-147: the index and the empty stages *)

(** The template literal [`${repo_id}.${issue_number}`]. *)
Definition pipelineKey (r n : N) : string :=
  pretty r +:+ "." +:+ pretty n.

(** The inner [pipelineIssues.map]: one write per entry, in order. *)
Definition recordPipeline (idx : nat) (entries : list membership)
    (m : gmap string nat) : gmap string nat :=
  foldl (λ acc e, <[pipelineKey (ref_repo_id e) (issue_number e) := idx]> acc)
        m entries.

(** The outer [board.pipelines.map], with the position [idx] of the callback
    and the dictionary threaded through. *)
Fixpoint mapPipelines (idx : nat) (ps : list pipeline) (m : gmap string nat)
    : gmap string nat * list richPipeline :=
  match ps with
  | [] => (m, [])
  | p :: ps' =>
      let m1 := recordPipeline idx (pipelineIssues p) m in
      let '(m2, rps) := mapPipelines (S idx) ps' m1 in
      (m2, {| name := pipeline_name p; issues := [] |} :: rps)
  end.

Definition repoIssuePipelineMap (b : Board) : gmap string nat :=
  (mapPipelines 0 (pipelines b) ∅).1.

(** [richPipelines] after the [push] of line 144. *)
Definition richPipelines (b : Board) : list richPipeline :=
  (mapPipelines 0 (pipelines b) ∅).2 ++ [{| name := "Closed"; issues := [] |}].

(** ** Lines 149-162: classification *)

Definition push (rp : richPipeline) (i : issue) : richPipeline :=
  {| name := name rp; issues := issues rp ++ [i] |}.

(** [rps[k].issues.push(i)]; [None] is the [TypeError] of reading [issues]
    from [undefined]. *)
Definition pushAt (k : nat) (i : issue) (rps : list richPipeline)
    : option (list richPipeline) :=
  match rps !! k with
  | Some rp => Some (<[k := push rp i]> rps)
  | None => None
  end.

(** The callback of [issues.map]. *)
Definition classifyIssue (m : gmap string nat) (rps : list richPipeline)
    (i : issue) : option (list richPipeline) :=
  let pipelineIndex := m !! pipelineKey (repo_id i) (number i) in
  if pull_request i then Some rps
  else
    match pipelineIndex, bool_decide (state i ≠ "closed") with
    | Some idx, true => pushAt idx i rps
    | _, _ => pushAt (length rps - 1) i rps
    end.

Fixpoint classifyAll (m : gmap string nat) (rps : list richPipeline)
    (l : list issue) : option (list richPipeline) :=
  match l with
  | [] => Some rps
  | i :: l' =>
      match classifyIssue m rps i with
      | Some rps' => classifyAll m rps' l'
      | None => None
      end
  end.

Definition classify (b : Board) (l : list issue) : option (list richPipeline) :=
  classifyAll (repoIssuePipelineMap b) (richPipelines b) l.

(** ** Lines 164-204: totals and report *)

(** The predicate of [_.filter]:
    [issue.milestone && issue.milestone.title === currentMilestone]. *)
Definition inMilestone (currentMilestone : string) (i : issue) : bool :=
  match milestone i with
  | Some ms => bool_decide (milestone_title ms = currentMilestone)
  | None => false
  end.

Definition milestoneIssues (currentMilestone : string) (l : list issue)
    : list issue :=
  filter (λ i, inMilestone currentMilestone i) l.

(** lodash's [baseSum], with the loop on [result] as [baseSumFrom]:
    [[
      var result;
      while (++index < length) {
        var current = iteratee(array[index]);
        if (current !== undefined) {
          result = result === undefined ? current : (result + current);
        }
      }
      return result;
    ]] *)
Definition baseSumFrom {A : Type} (iteratee : A → Js.value)
    (result : Js.value) (array : list A) : Js.value :=
  foldl (λ result x,
           let current := iteratee x in
           match current with
           | Js.Undefined => result
           | _ => match result with
                  | Js.Undefined => current
                  | _ => Js.add result current
                  end
           end)
        result array.

Definition baseSum {A : Type} (array : list A) (iteratee : A → Js.value)
    : Js.value :=
  baseSumFrom iteratee Js.Undefined array.

(** lodash's [_.sumBy]:
    [(array && array.length) ? baseSum(array, iteratee) : 0]. *)
Definition sumBy {A : Type} (array : list A) (iteratee : A → Js.value)
    : Js.value :=
  match array with
  | [] => Js.Number (Js.ofZ 0)
  | _ => baseSum array iteratee
  end.

(** lodash's [_.repeat]. *)
Fixpoint repeat_string (s : string) (n : nat) : string :=
  match n with
  | O => ""
  | S n' => s +:+ repeat_string s n'
  end.

(** [name === "Done" || name === "Closed"]. *)
Definition countsAsClosed (nm : string) : bool :=
  bool_decide (nm = "Done") || bool_decide (nm = "Closed").

(** The two [console.log] calls made for one milestone issue. *)
Definition issueLines (i : issue) : list string :=
  let assigneeString :=
    match assignee i with
    | Some a => " " +:+ login a
    | None => ""
    end in
  [ repo_name i +:+ "#" +:+ pretty (number i) +:+ ": " +:+ title i +:+ " ["
      +:+ Js.ToString (estimate i) +:+ " pts]" +:+ assigneeString;
    html_url i ].

(** The callback of [richPipelines.map] (lines 169-202), on the state made of
    [stats] and of the lines logged so far. *)
Definition reportPipeline (currentMilestone : string)
    (st : Stats * list string) (rp : richPipeline) : Stats * list string :=
  let '(stats, out) := st in
  let mis := milestoneIssues currentMilestone (issues rp) in
  let totalPoints := sumBy mis estimate in
  let stats' :=
    if countsAsClosed (name rp)
    then {| open := open stats;
            closed := Js.add_number (closed stats) (Js.ToNumber totalPoints) |}
    else {| open := Js.add_number (open stats) (Js.ToNumber totalPoints);
            closed := closed stats |} in
  let sectionTitle :=
    name rp +:+ " - " +:+ Js.ToString totalPoints +:+ " Points" in
  let out1 := out ++ [sectionTitle] in
  let out2 := out1 ++ [repeat_string "-" (String.length sectionTitle)] in
  let out3 :=
    match mis with
    | [] => out2 ++ ["None"]
    | _ => foldl (λ o i, o ++ issueLines i) out2 mis
    end in
  (stats', out3 ++ [" "]).

Definition initialStats : Stats := {| open := Js.ofZ 0; closed := Js.ofZ 0 |}.

Definition reportAll (currentMilestone : string) (rps : list richPipeline)
    : Stats * list string :=
  foldl (reportPipeline currentMilestone) (initialStats, []) rps.

(** The last [console.log]. *)
Definition totalLine (stats : Stats) : string :=
  "Total: " +:+ Js.number_to_string (open stats) +:+ " / "
    +:+ Js.number_to_string (Js.add_number (closed stats) (open stats)).

(** [main] from line 133 on: the lines written to the console, or [None] when
    an exception is thrown. *)
Definition main (b : Board) (l : list issue) (currentMilestone : string)
    : option (list string) :=
  match classify b l with
  | Some rps =>
      let '(stats, out) := reportAll currentMilestone rps in
      Some (out ++ [totalLine stats])
  | None => None
  end.

(** ** Lines 31-39: the headers of a GitHub request *)

(** The callback of [setContext]: the headers of the previous context,
    spread into a new object, with [authorization] written last.  The
    headers of the previous context may be [undefined], which spreads to
    nothing; [githubToken] is [undefined] when the variable is not set, and
    the empty string is falsy like [undefined]. *)
Definition authHeaders (githubToken : option string)
    (headers : option (gmap string string)) : gmap string string :=
  <["authorization" :=
      match githubToken with
      | Some t => if decide (t = "") then "" else "Bearer " +:+ t
      | None => ""
      end]> (default ∅ headers).

(** ** Lines 111-122: the issues of all repositories *)

(** An element of [workspace.repos]. *)
Record repoDetails : Type := {
  details_repo_id : N
}.

Record Workspace : Type := {
  repos : list repoDetails
}.

(** [getAllZenhubIssues], over the answer [getZenhubIssues] gets for each
    repository: [Some] of the array of issues, or [None] when the promise is
    rejected.  [Promise.all] keeps the order of the promises and is rejected
    when one of them is; [_.flatten] then joins the arrays. *)
Definition getAllZenhubIssues (getZenhubIssues : N → option (list issue))
    (workspace : Workspace) : option (list issue) :=
  match mapM (λ repoDetails, getZenhubIssues (details_repo_id repoDetails))
             (repos workspace) with
  | Some allResults => Some (concat allResults)
  | None => None
  end.

(** ** Sample data

    The board and the issues of the example of the specification (issues A,
    B and C), with an issue without estimate, one whose estimate is [null],
    a pull request and an issue without milestone. *)

Module Sample.

Definition mkIssue (n : N) (t st : string) (pr : bool)
    (ms : option Milestone) (e : Js.value) (a : option Assignee) : issue :=
  {| repo_id := 1; repo_name := "acme/app"; number := n; title := t;
     state := st; pull_request := pr; milestone := ms; estimate := e;
     assignee := a; html_url := "https://example.org/" +:+ pretty n |}.

Definition v1 : option Milestone := Some {| milestone_title := "v1" |}.

Definition issueA : issue :=
  mkIssue 10 "A" "open" false v1 (Js.Number (Js.ofZ 3)) None.
Definition issueB : issue :=
  mkIssue 11 "B" "closed" false v1 (Js.Number (Js.ofZ 5))
          (Some {| login := "bob" |}).
Definition issueC : issue :=
  mkIssue 12 "C" "closed" false v1 (Js.Number (Js.ofZ 2)) None.
Definition issueD : issue :=
  mkIssue 13 "D" "open" false v1 Js.Undefined None.
Definition issueE : issue :=
  mkIssue 14 "E" "open" false v1 Js.Null None.
Definition issuePR : issue :=
  mkIssue 15 "PR" "open" true v1 (Js.Number (Js.ofZ 8)) None.
Definition issueF : issue :=
  mkIssue 16 "F" "open" false None (Js.Number (Js.ofZ 1)) None.

Definition entry (n : N) : membership :=
  {| ref_repo_id := 1; issue_number := n |}.

Definition board : Board :=
  {| pipelines :=
       [ {| pipeline_name := "In Progress";
            pipelineIssues := [entry 10; entry 15; entry 16] |};
         {| pipeline_name := "Done";
            pipelineIssues := [entry 11] |} ] |}.

(** A board with one pipeline and the issue without estimate in it. *)
Definition backlog : Board :=
  {| pipelines :=
       [ {| pipeline_name := "Backlog"; pipelineIssues := [entry 13] |} ] |}.

(** The same, for the issue whose estimate is [null]. *)
Definition backlogNull : Board :=
  {| pipelines :=
       [ {| pipeline_name := "Backlog"; pipelineIssues := [entry 14] |} ] |}.

(** A board that declares pipelines named like the closing stages. *)
Definition closing : Board :=
  {| pipelines :=
       [ {| pipeline_name := "Closed"; pipelineIssues := [entry 10] |};
         {| pipeline_name := "Done"; pipelineIssues := [entry 10] |} ] |}.

(** The points of the issues above whose estimate is a whole number. *)
Definition points (i : issue) : Z :=
  if N.eqb (number i) 10 then 3%Z
  else if N.eqb (number i) 11 then 5%Z
  else if N.eqb (number i) 12 then 2%Z
  else 0%Z.

(** The number of the decimal literal [z / 10]: the double nearest to it. *)
Definition tenths (z : Z) : Js.number :=
  Js.div_number (Js.ofZ z) (Js.ofZ 10).

(** Three open issues with the estimates 0.1, 0.2 and 0.6, and a board with
    one pipeline for each, the second one named "Done". *)
Definition issueG : issue :=
  mkIssue 20 "G" "open" false v1 (Js.Number (tenths 1)) None.
Definition issueH : issue :=
  mkIssue 21 "H" "open" false v1 (Js.Number (tenths 2)) None.
Definition issueK : issue :=
  mkIssue 22 "K" "open" false v1 (Js.Number (tenths 6)) None.

Definition fractions : Board :=
  {| pipelines :=
       [ {| pipeline_name := "In Progress"; pipelineIssues := [entry 20] |};
         {| pipeline_name := "Done"; pipelineIssues := [entry 21] |};
         {| pipeline_name := "Review"; pipelineIssues := [entry 22] |} ] |}.

End Sample.

(** ** Notions used to state the properties *)

(** A string without the separator of [pipelineKey]. *)
Fixpoint dotless (s : string) : Prop :=
  match s with
  | EmptyString => True
  | String c s' => c ≠ "."%char ∧ dotless s'
  end.

(** The key written for an entry of a board pipeline. *)
Definition keyOf (e : membership) : string :=
  pipelineKey (ref_repo_id e) (issue_number e).

(** [v] is the position of the last pipeline of [ps] with an entry of key
    [k]. *)
Definition lastHolder (ps : list pipeline) (k : string) (v : nat) : Prop :=
  (∃ p, ps !! v = Some p ∧ k ∈ keyOf <$> pipelineIssues p)
  ∧ ∀ j p', v < j → ps !! j = Some p' → k ∉ keyOf <$> pipelineIssues p'.

(** The position [classifyIssue] pushes an issue that is not a pull request
    to, when [P] is the last position of [richPipelines]. *)
Definition stageOf (m : gmap string nat) (P : nat) (i : issue) : nat :=
  match m !! pipelineKey (repo_id i) (number i),
        bool_decide (state i ≠ "closed") with
  | Some idx, true => idx
  | _, _ => P
  end.

(** [i] is kept by the classification and pushed to position [k]. *)
Definition routedTo (m : gmap string nat) (P k : nat) (i : issue) : bool :=
  negb (pull_request i) && bool_decide (stageOf m P i = k).

(** From [rps] to [rps'] the issue [i] has been appended to the list of the
    stage at position [k]: that stage keeps its name and gets [i] after the
    issues it had, and every other stage is as it was. *)
Definition appendedAt (rps rps' : list richPipeline) (k : nat) (i : issue)
    : Prop :=
  length rps' = length rps
  ∧ (∃ rp rp', rps !! k = Some rp ∧ rps' !! k = Some rp'
               ∧ name rp' = name rp ∧ issues rp' = issues rp ++ [i])
  ∧ ∀ j, j ≠ k → rps' !! j = rps !! j.

(** The issues that are not pull requests, in the order of the input. *)
Definition retained (l : list issue) : list issue :=
  filter (λ i, negb (pull_request i)) l.

(** [totalPoints] of a stage. *)
Definition stageTotal (currentMilestone : string) (rp : richPipeline)
    : Js.value :=
  sumBy (milestoneIssues currentMilestone (issues rp)) estimate.

(** The sum of a list of numbers, accumulated from [0] from left to right. *)
Definition sumNumbers (l : list Js.number) : Js.number :=
  foldl Js.add_number (Js.ofZ 0) l.

(** The report as the specification words it: the line of an issue, ... *)
Definition spec_issueLine (i : issue) : string :=
  let assigneeSuffix :=
    match assignee i with
    | Some a => " " +:+ login a
    | None => ""
    end in
  repo_name i +:+ "#" +:+ pretty (number i) +:+ ": " +:+ title i +:+ " ["
    +:+ Js.ToString (estimate i) +:+ " pts]" +:+ assigneeSuffix.

(** ... the body of a stage, ... *)
Definition spec_body (filteredIssues : list issue) : list string :=
  match filteredIssues with
  | [] => ["None"]
  | _ => filteredIssues ≫= λ i, [spec_issueLine i; html_url i]
  end.

(** ... the header of a stage, ... *)
Definition spec_header (nm : string) (totalPoints : Js.value) : string :=
  nm +:+ " - " +:+ Js.ToString totalPoints +:+ " Points".

(** ... and the section of a stage: header, underline, body, separator. *)
Definition spec_section (currentMilestone : string) (rp : richPipeline)
    : list string :=
  let header := spec_header (name rp) (stageTotal currentMilestone rp) in
  [header; repeat_string "-" (String.length header)]
    ++ spec_body (milestoneIssues currentMilestone (issues rp))
    ++ [" "].

(** A string made of dashes only. *)
Fixpoint dashes (s : string) : Prop :=
  match s with
  | EmptyString => True
  | String c s' => c = "-"%char ∧ dashes s'
  end.

(** The double of the whole number [p] or [- p], for [p] below [2 ^ 53]: the
    mantissa is [p] shifted to 53 bits. *)
Definition canonical (s : bool) (p : positive) : Js.number :=
  S754_finite s
    (Pos.shiftl p (Z.to_N (53 - Zpos (digits2_pos p))))
    (Zpos (digits2_pos p) - 53).

(** Sums of whole numbers and of their magnitudes. *)
Definition sumZ (zs : list Z) : Z := foldr Z.add 0%Z zs.

Definition sumAbs (zs : list Z) : Z := foldr (λ z acc, Z.abs z + acc)%Z 0%Z zs.

(** The estimate of [i] is absent, [null] or the whole number [points i]. *)
Definition wholeEstimate (points : issue → Z) (i : issue) : Prop :=
  (estimate i = Js.Undefined ∧ points i = 0%Z)
  ∨ (estimate i = Js.Null ∧ points i = 0%Z)
  ∨ estimate i = Js.Number (Js.ofZ (points i)).

(** ** Properties of the printed keys *)

Section Keys.

Lemma pretty_N_char_dotless (d : N) : pretty_N_char d ≠ "."%char.
Proof. unfold pretty_N_char. by repeat case_match. Qed.

Lemma pretty_N_go_dotless (x : N) (s : string) :
  dotless s → dotless (pretty_N_go x s).
Proof.
  revert s. induction (N.lt_wf_0 x) as [x _ IH]; intros s Hs.
  destruct (decide (x = 0%N)) as [->|Hx].
  - by rewrite pretty_N_go_0.
  - rewrite pretty_N_go_step by lia.
    apply IH; [apply N.div_lt; lia|].
    split; [apply pretty_N_char_dotless | done].
Qed.

Lemma pretty_N_dotless (x : N) : dotless (pretty x).
Proof.
  unfold pretty, pretty_N. case_decide.
  - simpl. split; [discriminate | done].
  - by apply pretty_N_go_dotless.
Qed.

(** Two dotless prefixes followed by a dot split a string in one way. *)
Lemma dotless_split (s1 s2 t1 t2 : string) :
  dotless s1 → dotless s2 →
  s1 +:+ "." +:+ t1 = s2 +:+ "." +:+ t2 → s1 = s2 ∧ t1 = t2.
Proof.
  revert s2. induction s1 as [|c s1 IH]; intros [|d s2]; simpl.
  - intros _ _ Heq. by simplify_eq/=.
  - intros _ [Hd _] Heq. by simplify_eq/=.
  - intros [Hc _] _ Heq. by simplify_eq/=.
  - intros [_ H1] [_ H2] Heq. simplify_eq/=.
    destruct (IH s2 H1 H2) as [-> ->]; done.
Qed.

Lemma pipelineKey_inj (r n r' n' : N) :
  pipelineKey r n = pipelineKey r' n' → r = r' ∧ n = n'.
Proof.
  unfold pipelineKey. intros Heq.
  apply dotless_split in Heq as [Hr Hn]; auto using pretty_N_dotless.
  split; by apply (inj pretty).
Qed.

End Keys.

(** ** Properties of the index *)

Section Index.

Implicit Types (ps : list pipeline) (m : gmap string nat) (k : string).

Lemma recordPipeline_snoc idx (es : list membership) e m :
  recordPipeline idx (es ++ [e]) m
  = <[keyOf e := idx]> (recordPipeline idx es m).
Proof. unfold recordPipeline. by rewrite foldl_app. Qed.

Lemma recordPipeline_lookup idx (es : list membership) m k :
  recordPipeline idx es m !! k
  = if decide (k ∈ keyOf <$> es) then Some idx else m !! k.
Proof.
  induction es as [|e es IH] using rev_ind.
  - destruct (decide _) as [H|H]; [by apply elem_of_nil in H | done].
  - rewrite recordPipeline_snoc, fmap_app, lookup_insert, IH. simpl.
    repeat destruct (decide _); try done; set_solver.
Qed.

Lemma mapPipelines_snoc idx ps p m :
  mapPipelines idx (ps ++ [p]) m
  = (recordPipeline (idx + length ps) (pipelineIssues p)
       (mapPipelines idx ps m).1,
     (mapPipelines idx ps m).2
       ++ [{| name := pipeline_name p; issues := [] |}]).
Proof.
  revert idx m. induction ps as [|q ps IH]; intros idx m; simpl.
  - by rewrite Nat.add_0_r.
  - rewrite IH. destruct (mapPipelines (S idx) ps _) as [m2 rps]. simpl.
    by rewrite Nat.add_succ_r.
Qed.

Lemma mapPipelines_stages idx ps m :
  (mapPipelines idx ps m).2
  = (λ p, {| name := pipeline_name p; issues := [] |}) <$> ps.
Proof.
  revert idx m. induction ps as [|q ps IH]; intros idx m; simpl; [done|].
  specialize (IH (S idx) (recordPipeline idx (pipelineIssues q) m)).
  destruct (mapPipelines (S idx) ps _) as [m2 rps]. simpl in *. by f_equal.
Qed.

Lemma lastHolder_lt ps k v : lastHolder ps k v → v < length ps.
Proof. intros [(p & Hp & _) _]. by eapply lookup_lt_Some. Qed.

Lemma lastHolder_snoc_in ps p k v :
  k ∈ keyOf <$> pipelineIssues p →
  lastHolder (ps ++ [p]) k v ↔ v = length ps.
Proof.
  intros Hk. split.
  - intros Hl. pose proof (lastHolder_lt _ _ _ Hl) as Hlt.
    rewrite length_app in Hlt. simpl in Hlt.
    destruct Hl as [_ Hlast].
    destruct (decide (v = length ps)) as [|Hne]; [done|].
    destruct (Hlast (length ps) p); [lia| |done].
    by rewrite list_lookup_middle.
  - intros ->. split.
    + exists p. by rewrite list_lookup_middle.
    + intros j p' Hj Hp'. apply lookup_lt_Some in Hp'.
      rewrite length_app in Hp'. simpl in Hp'. lia.
Qed.

Lemma lastHolder_snoc_notin ps p k v :
  k ∉ keyOf <$> pipelineIssues p →
  lastHolder (ps ++ [p]) k v ↔ lastHolder ps k v.
Proof.
  intros Hk. split.
  - intros [(q & Hq & Hin) Hlast].
    assert (v < length ps) as Hlt.
    { apply lookup_lt_Some in Hq as Hlt. rewrite length_app in Hlt.
      simpl in Hlt. destruct (decide (v = length ps)) as [->|]; [|lia].
      rewrite list_lookup_middle in Hq by done. by simplify_eq. }
    split.
    + exists q. by rewrite lookup_app_l in Hq.
    + intros j p' Hj Hp'. apply (Hlast j p' Hj).
      rewrite lookup_app_l; [done | by eapply lookup_lt_Some].
  - intros [(q & Hq & Hin) Hlast]. split.
    + exists q. split; [|done]. rewrite lookup_app_l; [done|].
      by eapply lookup_lt_Some.
    + intros j p' Hj Hp'.
      destruct (decide (j < length ps)) as [Hlt|Hge].
      * rewrite lookup_app_l in Hp' by done. by eapply Hlast.
      * apply lookup_lt_Some in Hp' as Hlt. rewrite length_app in Hlt.
        simpl in Hlt. assert (j = length ps) as -> by lia.
        rewrite list_lookup_middle in Hp' by done. by simplify_eq.
Qed.

Lemma mapPipelines_lookup ps k v :
  (mapPipelines 0 ps ∅).1 !! k = Some v ↔ lastHolder ps k v.
Proof.
  induction ps as [|p ps IH] using rev_ind.
  - simpl. rewrite lookup_empty. split; [done|].
    intros H. apply lastHolder_lt in H. simpl in H. lia.
  - rewrite mapPipelines_snoc. simpl. rewrite recordPipeline_lookup.
    case_decide as Hk.
    + rewrite lastHolder_snoc_in by done. naive_solver.
    + by rewrite lastHolder_snoc_notin.
Qed.

Lemma mapPipelines_lookup_None ps k :
  (mapPipelines 0 ps ∅).1 !! k = None
  ↔ ∀ p, p ∈ ps → k ∉ keyOf <$> pipelineIssues p.
Proof.
  induction ps as [|p ps IH] using rev_ind.
  - simpl. rewrite lookup_empty. set_solver.
  - rewrite mapPipelines_snoc. simpl. rewrite recordPipeline_lookup.
    case_decide as Hk.
    + split; [done|]. intros H. destruct (H p); [set_solver | done].
    + rewrite IH. set_solver.
Qed.

Lemma keyOf_elem (es : list membership) (r n : N) :
  pipelineKey r n ∈ keyOf <$> es
  ↔ {| ref_repo_id := r; issue_number := n |} ∈ es.
Proof.
  rewrite list_elem_of_fmap. split.
  - intros ([r' n'] & Heq & Hin). unfold keyOf in Heq. simpl in Heq.
    apply pipelineKey_inj in Heq as [-> ->]. done.
  - intros Hin. by exists {| ref_repo_id := r; issue_number := n |}.
Qed.

Lemma repoIssuePipelineMap_bound (b : Board) k v :
  repoIssuePipelineMap b !! k = Some v → v < length (pipelines b).
Proof.
  unfold repoIssuePipelineMap. rewrite mapPipelines_lookup.
  apply lastHolder_lt.
Qed.

End Index.

(** ** Properties of the classification *)

Section Classification.

Implicit Types (m : gmap string nat) (rps : list richPipeline)
  (l : list issue) (i : issue).

Lemma pushAt_Some k i rps rp :
  rps !! k = Some rp → pushAt k i rps = Some (<[k := push rp i]> rps).
Proof. unfold pushAt. by intros ->. Qed.

Lemma pushAt_inv k i rps rps' :
  pushAt k i rps = Some rps' →
  ∃ rp, rps !! k = Some rp ∧ rps' = <[k := push rp i]> rps.
Proof. unfold pushAt. destruct (rps !! k) as [rp|]; naive_solver. Qed.

Lemma classifyIssue_pull_request m rps i :
  pull_request i = true → classifyIssue m rps i = Some rps.
Proof. unfold classifyIssue. by intros ->. Qed.

Lemma classifyIssue_retained m rps i :
  pull_request i = false →
  classifyIssue m rps i = pushAt (stageOf m (length rps - 1) i) i rps.
Proof.
  unfold classifyIssue, stageOf. intros ->.
  destruct (m !! _) as [v|]; [case_bool_decide|]; done.
Qed.

Lemma classifyAll_app m rps l1 l2 :
  classifyAll m rps (l1 ++ l2)
  = match classifyAll m rps l1 with
    | Some rps' => classifyAll m rps' l2
    | None => None
    end.
Proof.
  revert rps. induction l1 as [|i l1 IH]; intros rps; simpl; [done|].
  destruct (classifyIssue m rps i); [apply IH | done].
Qed.

Lemma stageOf_lt m P i :
  (∀ k v, m !! k = Some v → v < S P) → stageOf m P i < S P.
Proof.
  intros Hm. unfold stageOf.
  destruct (m !! _) as [v|] eqn:Hv; [|lia].
  case_bool_decide; [by eapply Hm | lia].
Qed.

(** The stages after the loop: stage [k] has received, in the order of the
    input, the issues routed to [k]. *)
Lemma classifyAll_routed m rps l :
  rps ≠ [] →
  (∀ k v, m !! k = Some v → v < length rps) →
  classifyAll m rps l
  = Some (imap (λ k rp,
                  {| name := name rp;
                     issues := issues rp
                               ++ filter (λ i, routedTo m (length rps - 1) k i) l |})
               rps).
Proof.
  revert rps. induction l as [|i l IH]; intros rps Hne Hm; simpl.
  - f_equal. apply list_eq. intros k. rewrite list_lookup_imap.
    destruct (rps !! k) as [[nm xs]|]; simpl; [|done].
    by rewrite app_nil_r.
  - destruct (pull_request i) eqn:Hpr.
    + rewrite classifyIssue_pull_request by done. rewrite IH by done.
      f_equal. apply imap_ext. intros k rp _. f_equal. f_equal.
      rewrite filter_cons_False; [done|].
      unfold routedTo. rewrite Hpr. simpl. tauto.
    + rewrite classifyIssue_retained by done.
      set (P := length rps - 1) in *.
      assert (length rps = S P) as Hlen.
      { destruct rps; [done | simpl in *; lia]. }
      assert (stageOf m P i < length rps) as Hd.
      { rewrite Hlen. apply stageOf_lt. by rewrite <-Hlen. }
      destruct (lookup_lt_is_Some_2 _ _ Hd) as [rp Hrp].
      rewrite (pushAt_Some _ _ _ rp) by done.
      rewrite IH; rewrite ?length_insert; [| |done].
      2:{ intros Hnil. apply (f_equal length) in Hnil.
          rewrite length_insert, Hlen in Hnil. done. }
      fold P. f_equal. apply list_eq. intros k.
      rewrite !list_lookup_imap.
      destruct (decide (k = stageOf m P i)) as [->|Hk].
      * rewrite list_lookup_insert_eq by done. rewrite Hrp. simpl.
        rewrite filter_cons_True.
        { by rewrite <-app_assoc. }
        unfold routedTo. rewrite Hpr, bool_decide_eq_true_2; done.
      * rewrite list_lookup_insert_ne by done.
        destruct (rps !! k) as [rp'|]; simpl; [|done].
        rewrite filter_cons_False; [done|].
        unfold routedTo. rewrite Hpr, bool_decide_eq_false_2; simpl; auto.
Qed.

Lemma richPipelines_eq (b : Board) :
  richPipelines b
  = ((λ p, {| name := pipeline_name p; issues := [] |}) <$> pipelines b)
      ++ [{| name := "Closed"; issues := [] |}].
Proof. unfold richPipelines. by rewrite mapPipelines_stages. Qed.

Lemma richPipelines_length (b : Board) :
  length (richPipelines b) = S (length (pipelines b)).
Proof. rewrite richPipelines_eq, length_app, length_fmap. simpl. lia. Qed.

(** The classification of a board never throws, and its result is known. *)
Lemma classify_routed (b : Board) l :
  classify b l
  = Some (imap (λ k rp,
                  {| name := name rp;
                     issues := filter (λ i, routedTo (repoIssuePipelineMap b)
                                              (length (pipelines b)) k i) l |})
               (richPipelines b)).
Proof.
  unfold classify. rewrite classifyAll_routed.
  - rewrite richPipelines_length. simpl. rewrite Nat.sub_0_r.
    f_equal. apply list_eq. intros k. rewrite !list_lookup_imap.
    destruct (richPipelines b !! k) as [rp|] eqn:Hk; simpl; [|done].
    do 2 f_equal. rewrite richPipelines_eq in Hk.
    apply list_elem_of_lookup_2, elem_of_app in Hk as [Hk|Hk].
    + apply list_elem_of_fmap in Hk as (p & -> & _). done.
    + apply list_elem_of_singleton in Hk as ->. done.
  - intros H. pose proof (richPipelines_length b) as Hl.
    rewrite H in Hl. done.
  - intros k v Hv. rewrite richPipelines_length.
    apply repoIssuePipelineMap_bound in Hv. lia.
Qed.

End Classification.

(** ** Properties of the arithmetic of totals *)

Section Numbers.

Local Open Scope Z_scope.

Implicit Types (p q : positive) (n k : N) (z a b c : Z).

Lemma add_number_comm (x y : Js.number) :
  Js.add_number x y = Js.add_number y x.
Proof.
  unfold Js.add_number.
  destruct x as [[]|[]| |sx mx ex], y as [[]|[]| |sy my ey]; try reflexivity.
  simpl. by rewrite Z.min_comm, Z.add_comm.
Qed.

(** [p] shifted left by [n] bits. *)
Lemma shiftl_0 p : Pos.shiftl p 0 = p.
Proof. done. Qed.

Lemma shiftl_succ p n : Pos.shiftl p (N.succ n) = xO (Pos.shiftl p n).
Proof.
  destruct n as [|n]; [done|].
  change (N.succ (N.pos n)) with (N.pos (Pos.succ n)).
  unfold Pos.shiftl. apply Pos.iter_succ.
Qed.

Lemma shiftl_add p n k : Pos.shiftl (Pos.shiftl p n) k = Pos.shiftl p (n + k).
Proof.
  induction k as [|k IH] using N.peano_ind.
  - by rewrite N.add_0_r.
  - by rewrite N.add_succ_r, !shiftl_succ, IH.
Qed.

Lemma shiftl_digits p n :
  Zpos (digits2_pos (Pos.shiftl p n)) = Zpos (digits2_pos p) + Z.of_N n.
Proof.
  induction n as [|n IH] using N.peano_ind.
  { rewrite shiftl_0. change (Z.of_N 0) with 0. lia. }
  rewrite shiftl_succ. simpl digits2_pos.
  rewrite Pos2Z.inj_succ, N2Z.inj_succ, IH. lia.
Qed.

Lemma shiftl_value p n : Zpos (Pos.shiftl p n) = Zpos p * 2 ^ Z.of_N n.
Proof.
  induction n as [|n IH] using N.peano_ind.
  { rewrite shiftl_0. change (Z.of_N 0) with 0. lia. }
  rewrite shiftl_succ, N2Z.inj_succ, Z.pow_succ_r by lia.
  rewrite Pos2Z.inj_xO, IH. lia.
Qed.

Lemma digits_bounds p :
  2 ^ (Zpos (digits2_pos p) - 1) <= Zpos p < 2 ^ Zpos (digits2_pos p).
Proof.
  induction p as [p IH|p IH|]; simpl digits2_pos.
  - rewrite Pos2Z.inj_succ, Z.pow_succ_r by lia.
    replace (Z.succ (Zpos (digits2_pos p)) - 1)
      with (Z.succ (Zpos (digits2_pos p) - 1)) by lia.
    rewrite Z.pow_succ_r by lia. lia.
  - rewrite Pos2Z.inj_succ, Z.pow_succ_r by lia.
    replace (Z.succ (Zpos (digits2_pos p)) - 1)
      with (Z.succ (Zpos (digits2_pos p) - 1)) by lia.
    rewrite Z.pow_succ_r by lia. lia.
  - simpl. lia.
Qed.

Lemma digits_le_53 p : Zpos p < 2 ^ 53 → Zpos (digits2_pos p) <= 53.
Proof.
  intros Hp. destruct (Z.le_gt_cases (Zpos (digits2_pos p)) 53) as [|Hgt]; [done|].
  pose proof (digits_bounds p) as [Hlo _].
  assert (2 ^ 53 <= 2 ^ (Zpos (digits2_pos p) - 1))
    by (apply Z.pow_le_mono_r; lia).
  lia.
Qed.

(** Shifting right the bits that a shift to the left has added. *)
Lemma shr_1_xO p :
  shr_1 {| shr_m := Zpos p~0; shr_r := false; shr_s := false |}
  = {| shr_m := Zpos p; shr_r := false; shr_s := false |}.
Proof. done. Qed.

Lemma shr_shiftl p (t : positive) :
  iter_pos shr_1 t
    {| shr_m := Zpos (Pos.shiftl p (Npos t)); shr_r := false; shr_s := false |}
  = {| shr_m := Zpos p; shr_r := false; shr_s := false |}.
Proof.
  revert p. induction t as [t IH|t IH|]; intros p.
  - replace (Pos.shiftl p (N.pos t~1))
      with (xO (Pos.shiftl (Pos.shiftl p (Npos t)) (Npos t))).
    + change (iter_pos shr_1 t~1 ?x)
        with (iter_pos shr_1 t (iter_pos shr_1 t (shr_1 x))).
      by rewrite shr_1_xO, !IH.
    + rewrite shiftl_add, <-shiftl_succ. f_equal. lia.
  - replace (Pos.shiftl p (N.pos t~0))
      with (Pos.shiftl (Pos.shiftl p (Npos t)) (Npos t)).
    + change (iter_pos shr_1 t~0 ?x)
        with (iter_pos shr_1 t (iter_pos shr_1 t x)).
      by rewrite !IH.
    + rewrite shiftl_add. f_equal. lia.
  - done.
Qed.

(** A mantissa of 53 bits within the range of exponents is kept as it is. *)
Lemma binary_round_aux_canonical (s : bool) p (e : Z) :
  Zpos (digits2_pos p) = 53 → -1074 <= e <= 971 →
  binary_round_aux Js.prec Js.emax s (Zpos p) e loc_Exact = S754_finite s p e.
Proof.
  intros Hd He. unfold binary_round_aux, shr_fexp. simpl Zdigits2.
  unfold fexp, emin, Js.prec, Js.emax. rewrite Hd.
  replace (Z.max (53 + e - 53) (3 - 1024 - 53) - e) with 0 by lia.
  simpl. rewrite Hd.
  replace (Z.max (53 + e - 53) (3 - 1024 - 53) - e) with 0 by lia.
  simpl. destruct (Z.leb_spec e (1024 - 53)); [done | lia].
Qed.

(** The double of the integer [± p * 2 ^ k], written with exponent [- k]. *)
Lemma binary_round_shifted (s : bool) p k :
  Zpos p < 2 ^ 53 → (k <= 1000)%N →
  binary_round Js.prec Js.emax s (Pos.shiftl p k) (- Z.of_N k)
  = S754_finite s
      (Pos.shiftl p (Z.to_N (53 - Zpos (digits2_pos p))))
      (Zpos (digits2_pos p) - 53).
Proof.
  intros Hp Hk. pose proof (digits_le_53 p Hp) as Hd.
  set (d := Zpos (digits2_pos p)) in *.
  assert (1 <= d) by (unfold d; lia).
  unfold binary_round, shl_align.
  rewrite shiftl_digits. fold d.
  unfold fexp, emin, Js.prec, Js.emax.
  replace (Z.max (d + Z.of_N k + - Z.of_N k - 53) (3 - 1024 - 53))
    with (d - 53) by lia.
  destruct (d - 53 - - Z.of_N k) as [|t|t] eqn:Ht.
  - (* the exponent is already the canonical one *)
    rewrite binary_round_aux_canonical.
    + f_equal; [f_equal|]; lia.
    + rewrite shiftl_digits. fold d. lia.
    + lia.
  - (* more than 53 bits: the low bits, all zero, are shifted out *)
    unfold binary_round_aux, shr_fexp. simpl Zdigits2.
    rewrite shiftl_digits. fold d.
    unfold fexp, emin, Js.prec, Js.emax.
    replace (Z.max (d + Z.of_N k + - Z.of_N k - 53) (3 - 1024 - 53)
             - - Z.of_N k) with (Zpos t) by lia.
    unfold shr. simpl shr_record_of_loc.
    replace k with (Z.to_N (53 - d) + Npos t)%N by lia.
    rewrite <-shiftl_add, shr_shiftl. simpl shr_m. simpl loc_of_shr_record.
    simpl round_nearest_even.
    change (shr_fexp 53 1024 ?m ?e ?l) with
      (shr (shr_record_of_loc m l) e (fexp 53 1024 (Zdigits2 m + e) - e)).
    simpl Zdigits2. rewrite shiftl_digits. fold d.
    unfold fexp, emin.
    replace (Z.max
               (d + Z.of_N (Z.to_N (53 - d))
                + (- Z.of_N (Z.to_N (53 - d) + N.pos t) + Z.pos t) - 53)
               (3 - 1024 - 53)
             - (- Z.of_N (Z.to_N (53 - d) + N.pos t) + Z.pos t))
      with 0 by lia.
    simpl.
    destruct (Z.leb_spec (- Z.of_N (Z.to_N (53 - d) + N.pos t) + Z.pos t)
                         (1024 - 53)); [|lia].
    f_equal. lia.
  - (* fewer than 53 bits: the mantissa is shifted to the left *)
    rewrite binary_round_aux_canonical.
    + f_equal.
      change (Pos.iter xO ?q t) with (Pos.shiftl q (Npos t)).
      rewrite shiftl_add. f_equal. lia.
    + change (Pos.iter xO ?q t) with (Pos.shiftl q (Npos t)).
      rewrite !shiftl_digits. fold d. lia.
    + lia.
Qed.


Lemma ofZ_pos p : Zpos p < 2 ^ 53 → Js.ofZ (Zpos p) = canonical false p.
Proof.
  intros Hp. unfold Js.ofZ, binary_normalize, canonical.
  apply (binary_round_shifted false p 0 Hp). lia.
Qed.

Lemma ofZ_neg p : Zpos p < 2 ^ 53 → Js.ofZ (Zneg p) = canonical true p.
Proof.
  intros Hp. unfold Js.ofZ, binary_normalize, canonical.
  apply (binary_round_shifted true p 0 Hp). lia.
Qed.

Lemma shl_align_fst p (e e' : Z) :
  e' <= e → fst (shl_align p e e') = Pos.shiftl p (Z.to_N (e - e')).
Proof.
  intros He. unfold shl_align. destruct (e' - e) as [|t|t] eqn:Ht.
  - by replace (e - e') with 0 by lia.
  - lia.
  - replace (e - e') with (Zpos t) by lia. done.
Qed.

Lemma normalize_shifted c (k : N) :
  Z.abs c < 2 ^ 53 → (k <= 1000)%N →
  binary_normalize Js.prec Js.emax (c * 2 ^ Z.of_N k) (- Z.of_N k) false
  = Js.ofZ c.
Proof.
  intros Hc Hk. destruct c as [|r|r].
  - done.
  - rewrite <-shiftl_value. unfold binary_normalize.
    rewrite binary_round_shifted by (done || lia).
    by rewrite ofZ_pos by lia.
  - replace (Z.neg r * 2 ^ Z.of_N k) with (Z.neg (Pos.shiftl r k)).
    + unfold binary_normalize.
      rewrite binary_round_shifted by (done || lia).
      by rewrite ofZ_neg by lia.
    + rewrite <-!Pos2Z.opp_pos, shiftl_value. lia.
Qed.

Lemma add_canonical (sa sb : bool) p q :
  Zpos p < 2 ^ 53 → Zpos q < 2 ^ 53 →
  Z.abs (cond_Zopp sa (Zpos p) + cond_Zopp sb (Zpos q)) < 2 ^ 53 →
  Js.add_number (canonical sa p) (canonical sb q)
  = Js.ofZ (cond_Zopp sa (Zpos p) + cond_Zopp sb (Zpos q)).
Proof.
  intros Hp Hq Hs.
  pose proof (digits_le_53 p Hp). pose proof (digits_le_53 q Hq).
  unfold Js.add_number, canonical, SFadd.
  set (dp := Zpos (digits2_pos p)) in *. set (dq := Zpos (digits2_pos q)) in *.
  assert (1 <= dp) by (unfold dp; lia). assert (1 <= dq) by (unfold dq; lia).
  set (ez := Z.min (dp - 53) (dq - 53)).
  rewrite !shl_align_fst, !shiftl_add by lia.
  set (k := Z.to_N (- ez)).
  replace (Z.to_N (53 - dp) + Z.to_N (dp - 53 - ez))%N with k by lia.
  replace (Z.to_N (53 - dq) + Z.to_N (dq - 53 - ez))%N with k by lia.
  replace ez with (- Z.of_N k) by lia.
  rewrite <-(normalize_shifted _ k) by (done || lia).
  f_equal. rewrite !shiftl_value. destruct sa, sb; simpl cond_Zopp; lia.
Qed.

(** Additions of whole numbers that stay below [2 ^ 53] are exact. *)
Lemma add_ofZ a b :
  Z.abs a < 2 ^ 53 → Z.abs b < 2 ^ 53 → Z.abs (a + b) < 2 ^ 53 →
  Js.add_number (Js.ofZ a) (Js.ofZ b) = Js.ofZ (a + b).
Proof.
  intros Ha Hb Hab.
  destruct (decide (a = 0)) as [->|Ha0].
  { rewrite Z.add_0_l. destruct b as [|q|q];
      rewrite ?ofZ_pos, ?ofZ_neg by lia; reflexivity. }
  destruct (decide (b = 0)) as [->|Hb0].
  { rewrite Z.add_0_r. destruct a as [|p|p];
      rewrite ?ofZ_pos, ?ofZ_neg by lia; reflexivity. }
  destruct a as [|p|p], b as [|q|q]; try done;
    rewrite ?(ofZ_pos p), ?(ofZ_neg p), ?(ofZ_pos q), ?(ofZ_neg q) by lia.
  - apply (add_canonical false false); simpl cond_Zopp; lia.
  - apply (add_canonical false true); simpl cond_Zopp; lia.
  - apply (add_canonical true false); simpl cond_Zopp; lia.
  - apply (add_canonical true true); simpl cond_Zopp; lia.
Qed.

(** A whole number below [2 ^ 53] is printed with its decimal digits. *)
Lemma number_to_string_ofZ z :
  Z.abs z < 2 ^ 53 → Js.number_to_string (Js.ofZ z) = pretty z.
Proof.
  intros Hz.
  assert (∀ (s : bool) p, Zpos p < 2 ^ 53 →
            Js.magnitude_to_string
              (Pos.shiftl p (Z.to_N (53 - Zpos (digits2_pos p))))
              (Zpos (digits2_pos p) - 53) = pretty p) as Hm.
  { intros _ p Hp. pose proof (digits_le_53 p Hp).
    unfold Js.magnitude_to_string, Js.integerOf.
    set (d := Zpos (digits2_pos p)) in *.
    assert (1 <= d) by (unfold d; lia).
    rewrite shiftl_value.
    replace (Z.of_N (Z.to_N (53 - d))) with (53 - d) by lia.
    destruct (Z.leb_spec 0 (d - 53)).
    - replace (53 - d) with 0 by lia. replace (d - 53) with 0 by lia.
      rewrite Z.pow_0_r, !Z.mul_1_r.
      destruct (Z.leb_spec (Zpos p) (2 ^ 53)); [done | lia].
    - replace (- (d - 53)) with (53 - d) by lia.
      rewrite Z.mod_mul, Z.div_mul by (apply Z.pow_nonzero; lia).
      simpl Z.eqb. cbv iota.
      destruct (Z.leb_spec (Zpos p) (2 ^ 53)); [done | lia]. }
  destruct z as [|p|p].
  - done.
  - rewrite ofZ_pos by lia. unfold canonical, Js.number_to_string.
    by rewrite (Hm false) by lia.
  - rewrite ofZ_neg by lia. unfold canonical, Js.number_to_string.
    by rewrite (Hm true) by lia.
Qed.


Lemma add_number_NaN_l (x : Js.number) : Js.add_number Js.NaN x = Js.NaN.
Proof. by destruct x. Qed.

Lemma add_number_NaN_r (x : Js.number) : Js.add_number x Js.NaN = Js.NaN.
Proof. by destruct x as [[]|[]| |]. Qed.

Lemma sumNumbers_snoc (l : list Js.number) (x : Js.number) :
  sumNumbers (l ++ [x]) = Js.add_number (sumNumbers l) x.
Proof. unfold sumNumbers. by rewrite foldl_app. Qed.

Lemma sumZ_app (xs ys : list Z) : sumZ (xs ++ ys) = sumZ xs + sumZ ys.
Proof.
  unfold sumZ. induction xs as [|x xs IH]; simpl; [done|]. rewrite IH. lia.
Qed.

Lemma sumAbs_app (xs ys : list Z) : sumAbs (xs ++ ys) = sumAbs xs + sumAbs ys.
Proof.
  unfold sumAbs. induction xs as [|x xs IH]; simpl; [done|]. rewrite IH. lia.
Qed.

Lemma sumAbs_nonneg (xs : list Z) : 0 <= sumAbs xs.
Proof. unfold sumAbs. induction xs as [|x xs IH]; simpl; lia. Qed.

Lemma sumZ_abs (xs : list Z) : Z.abs (sumZ xs) <= sumAbs xs.
Proof. unfold sumZ, sumAbs. induction xs as [|x xs IH]; simpl; lia. Qed.

Lemma sumZ_perm (xs ys : list Z) : xs ≡ₚ ys → sumZ xs = sumZ ys.
Proof.
  unfold sumZ.
  induction 1 as [|x xs ys _ IH|x y xs|xs ys zs _ IH1 _ IH2]; simpl; lia.
Qed.

Lemma sumAbs_perm (xs ys : list Z) : xs ≡ₚ ys → sumAbs xs = sumAbs ys.
Proof.
  unfold sumAbs.
  induction 1 as [|x xs ys _ IH|x y xs|xs ys zs _ IH1 _ IH2]; simpl; lia.
Qed.

(** A sum of whole numbers accumulated from a whole number is exact as long
    as the magnitudes add up to less than [2 ^ 53]. *)
Lemma foldl_add_ofZ (a : Z) (zs : list Z) :
  Z.abs a + sumAbs zs < 2 ^ 53 →
  foldl Js.add_number (Js.ofZ a) (Js.ofZ <$> zs) = Js.ofZ (a + sumZ zs).
Proof.
  revert a. induction zs as [|z zs IH]; intros a Hb.
  - simpl. by rewrite Z.add_0_r.
  - change (sumAbs (z :: zs)) with (Z.abs z + sumAbs zs) in Hb.
    change (sumZ (z :: zs)) with (z + sumZ zs).
    pose proof (sumAbs_nonneg zs).
    rewrite fmap_cons. simpl foldl. rewrite add_ofZ by lia.
    rewrite IH by lia. f_equal. lia.
Qed.

Lemma sumNumbers_ofZ (zs : list Z) :
  sumAbs zs < 2 ^ 53 → sumNumbers (Js.ofZ <$> zs) = Js.ofZ (sumZ zs).
Proof.
  intros Hb. unfold sumNumbers. rewrite foldl_add_ofZ; [done|]. simpl. lia.
Qed.

(** Numbers as the code prints them; on the whole numbers among them the
    search for the shortest digits gives the digits themselves. *)
Example example_number_to_string :
  Js.number_to_string <$>
    [ Js.ofZ 0; Js.ofZ (-7); Js.div_number (Js.ofZ 1) (Js.ofZ 10);
      Js.add_number (Js.div_number (Js.ofZ 1) (Js.ofZ 10))
                    (Js.div_number (Js.ofZ 2) (Js.ofZ 10));
      Js.div_number (Js.ofZ 5) (Js.ofZ 2);
      Js.div_number (Js.ofZ (-1)) (Js.ofZ 3);
      Js.ofZ (2 ^ 53); Js.ofZ (2 ^ 53 + 1);
      Js.ofZ 123456789012345678901; Js.ofZ (10 ^ 21);
      Js.div_number (Js.ofZ 1) (Js.ofZ (10 ^ 6));
      Js.div_number (Js.ofZ 1) (Js.ofZ (10 ^ 7));
      S754_finite false 1 (-1074);
      Js.add_number (Js.ofZ (10 ^ 308)) (Js.ofZ (10 ^ 308));
      Js.add_number (S754_infinity false) (S754_infinity true);
      S754_zero true ]
  = [ "0"; "-7"; "0.1"; "0.30000000000000004"; "2.5"; "-0.3333333333333333";
      "9007199254740992"; "9007199254740992"; "123456789012345680000";
      "1e+21"; "0.000001"; "1e-7"; "5e-324"; "Infinity"; "NaN"; "0" ]
  ∧ Js.shortestDecimal (3 * 2 ^ 51) (-51) = "3"
  ∧ Js.shortestDecimal (120 * 2 ^ 46) (-46) = "120"
  ∧ Js.shortestDecimal (2 ^ 52) 1 = "9007199254740992".
Proof. vm_compute. split_and!; reflexivity. Qed.

End Numbers.

(** ** Properties of the report *)

Section Report.

Variable currentMilestone : string.

Implicit Types (rps : list richPipeline) (rp : richPipeline)
  (l : list issue) (out : list string) (stats : Stats).

Lemma repeat_string_length (n : nat) :
  String.length (repeat_string "-" n) = n.
Proof.
  induction n as [|n IH]; [done|].
  change (S (String.length (repeat_string "-" n)) = S n). by rewrite IH.
Qed.

Lemma repeat_string_dashes (n : nat) : dashes (repeat_string "-" n).
Proof.
  induction n as [|n IH]; [done|].
  change ("-"%char = "-"%char ∧ dashes (repeat_string "-" n)). done.
Qed.

Lemma issueLines_spec (i : issue) :
  issueLines i = [spec_issueLine i; html_url i].
Proof. done. Qed.

Lemma log_issues out l :
  foldl (λ o i, o ++ issueLines i) out l
  = out ++ (l ≫= λ i, [spec_issueLine i; html_url i]).
Proof.
  revert out. induction l as [|i l IH]; intros out; simpl.
  - by rewrite app_nil_r.
  - rewrite IH, issueLines_spec. by rewrite <-app_assoc.
Qed.

Lemma reportPipeline_out stats out rp :
  (reportPipeline currentMilestone (stats, out) rp).2
  = out ++ spec_section currentMilestone rp.
Proof.
  unfold reportPipeline, spec_section, spec_body, spec_header, stageTotal.
  simpl. destruct (milestoneIssues _ _) as [|i mis] eqn:Hmis.
  - rewrite <-!app_assoc. done.
  - rewrite log_issues, <-!app_assoc. done.
Qed.

Lemma reportPipeline_stats stats out rp :
  (reportPipeline currentMilestone (stats, out) rp).1
  = if countsAsClosed (name rp)
    then {| open := open stats;
            closed := Js.add_number (closed stats)
                        (Js.ToNumber (stageTotal currentMilestone rp)) |}
    else {| open := Js.add_number (open stats)
                      (Js.ToNumber (stageTotal currentMilestone rp));
            closed := closed stats |}.
Proof. done. Qed.

Lemma reportAll_snoc rps rp :
  reportAll currentMilestone (rps ++ [rp])
  = reportPipeline currentMilestone (reportAll currentMilestone rps) rp.
Proof. unfold reportAll. by rewrite foldl_app. Qed.

Lemma reportAll_out rps :
  (reportAll currentMilestone rps).2
  = concat (spec_section currentMilestone <$> rps).
Proof.
  induction rps as [|rp rps IH] using rev_ind; [done|].
  rewrite reportAll_snoc.
  destruct (reportAll currentMilestone rps) as [stats out].
  rewrite reportPipeline_out. simpl in IH. rewrite IH.
  rewrite fmap_app, concat_app. simpl. by rewrite app_nil_r.
Qed.

Lemma reportAll_open rps :
  open (reportAll currentMilestone rps).1
  = sumNumbers (Js.ToNumber ∘ stageTotal currentMilestone
                  <$> filter (λ rp, negb (countsAsClosed (name rp))) rps).
Proof.
  induction rps as [|rp rps IH] using rev_ind; [done|].
  rewrite reportAll_snoc.
  destruct (reportAll currentMilestone rps) as [stats out].
  rewrite reportPipeline_stats, filter_app. simpl in IH.
  destruct (countsAsClosed (name rp)) eqn:Hc; simpl.
  - rewrite filter_cons_False by (rewrite Hc; simpl; tauto).
    rewrite filter_nil, app_nil_r. done.
  - rewrite filter_cons_True by (rewrite Hc; done).
    rewrite filter_nil, fmap_app, list_fmap_singleton, sumNumbers_snoc, IH.
    done.
Qed.

Lemma reportAll_closed rps :
  closed (reportAll currentMilestone rps).1
  = sumNumbers (Js.ToNumber ∘ stageTotal currentMilestone
                  <$> filter (λ rp, countsAsClosed (name rp)) rps).
Proof.
  induction rps as [|rp rps IH] using rev_ind; [done|].
  rewrite reportAll_snoc.
  destruct (reportAll currentMilestone rps) as [stats out].
  rewrite reportPipeline_stats, filter_app. simpl in IH.
  destruct (countsAsClosed (name rp)) eqn:Hc; simpl.
  - rewrite filter_cons_True by (rewrite Hc; done).
    rewrite filter_nil, fmap_app, list_fmap_singleton, sumNumbers_snoc, IH.
    done.
  - rewrite filter_cons_False by (rewrite Hc; simpl; tauto).
    rewrite filter_nil, app_nil_r. done.
Qed.

Lemma main_eq (b : Board) l (rps : list richPipeline) :
  classify b l = Some rps →
  main b l currentMilestone
  = Some ((reportAll currentMilestone rps).2
            ++ [totalLine (reportAll currentMilestone rps).1]).
Proof.
  unfold main. intros ->. by destruct (reportAll _ _).
Qed.

End Report.

(** ** The stages produced by the classification *)

Section Stages.

Implicit Types (b : Board) (rps : list richPipeline) (l : list issue).

Lemma classify_total b l : is_Some (classify b l).
Proof. rewrite classify_routed. by eexists. Qed.

Lemma classify_length b l rps :
  classify b l = Some rps → length rps = S (length (pipelines b)).
Proof.
  rewrite classify_routed. intros [= <-].
  by rewrite length_imap, richPipelines_length.
Qed.

Lemma classify_names b l rps :
  classify b l = Some rps →
  name <$> rps = (pipeline_name <$> pipelines b) ++ ["Closed"].
Proof.
  rewrite classify_routed. intros [= <-].
  trans (name <$> richPipelines b).
  - apply list_eq. intros k.
    rewrite !list_lookup_fmap, list_lookup_imap.
    by destruct (richPipelines b !! k).
  - by rewrite richPipelines_eq, fmap_app, <-list_fmap_compose.
Qed.

Lemma classify_lookup b l rps k rp :
  classify b l = Some rps →
  rps !! k = Some rp →
  issues rp
  = filter (λ i, routedTo (repoIssuePipelineMap b) (length (pipelines b)) k i)
           l.
Proof.
  rewrite classify_routed. intros [= <-]. rewrite list_lookup_imap.
  destruct (richPipelines b !! k); simpl; [|done]. by intros [= <-].
Qed.

Lemma pushAt_perm k i rps rps' :
  pushAt k i rps = Some rps' →
  concat (issues <$> rps') ≡ₚ i :: concat (issues <$> rps).
Proof.
  intros (rp & Hrp & ->)%pushAt_inv.
  rewrite list_fmap_insert.
  rewrite insert_take_drop
    by (rewrite length_fmap; by eapply lookup_lt_Some).
  rewrite <-(take_drop_middle (issues <$> rps) k (issues rp)) at 3
    by (by rewrite list_lookup_fmap, Hrp).
  rewrite !concat_app. simpl.
  rewrite (Permutation_app_comm (issues rp) [i]). simpl.
  symmetry. apply Permutation_middle.
Qed.

Lemma classifyAll_perm m rps l rps' :
  classifyAll m rps l = Some rps' →
  concat (issues <$> rps') ≡ₚ concat (issues <$> rps) ++ retained l.
Proof.
  revert rps. induction l as [|i l IH]; intros rps; simpl.
  - intros [= <-]. by rewrite app_nil_r.
  - destruct (classifyIssue m rps i) as [rps1|] eqn:Hstep; [|done].
    intros Hrest. rewrite (IH _ Hrest). unfold retained.
    destruct (pull_request i) eqn:Hpr.
    + rewrite classifyIssue_pull_request in Hstep by done.
      injection Hstep as <-.
      rewrite filter_cons_False by (rewrite Hpr; simpl; tauto). done.
    + rewrite classifyIssue_retained in Hstep by done.
      rewrite (pushAt_perm _ _ _ _ Hstep).
      rewrite filter_cons_True by (rewrite Hpr; done).
      simpl. by rewrite Permutation_middle.
Qed.

Lemma richPipelines_empty b : concat (issues <$> richPipelines b) = [].
Proof.
  rewrite richPipelines_eq, fmap_app, concat_app, <-list_fmap_compose.
  simpl. rewrite app_nil_r. induction (pipelines b); simpl; auto.
Qed.

Lemma classifyIssue_step b pre i rps0 :
  classify b pre = Some rps0 →
  pull_request i = false →
  classify b (pre ++ [i])
  = pushAt (stageOf (repoIssuePipelineMap b) (length (pipelines b)) i) i rps0.
Proof.
  intros Hpre Hpr. unfold classify in *.
  rewrite classifyAll_app, Hpre. simpl.
  rewrite classifyIssue_retained by done.
  assert (length rps0 = S (length (pipelines b))) as ->
    by (by eapply classify_length).
  simpl. rewrite Nat.sub_0_r. by destruct (pushAt _ _ _).
Qed.

(** Every issue of the input that is not a pull request is in the list of
    the stage it is routed to, and in no other. *)
Lemma retained_issue_stage b l :
  ∃ rps, classify b l = Some rps
    ∧ ∀ i, i ∈ l → pull_request i = false →
        ∃ k rp, rps !! k = Some rp ∧ i ∈ issues rp
                ∧ ∀ k' rp', rps !! k' = Some rp' → i ∈ issues rp' → k' = k.
Proof.
  destruct (classify_total b l) as [rps Hrps]. exists rps.
  split; [done|]. intros i Hi Hpr.
  set (k := stageOf (repoIssuePipelineMap b) (length (pipelines b)) i).
  assert (k < length rps) as Hk.
  { rewrite (classify_length _ _ _ Hrps). apply stageOf_lt.
    intros key v Hv. apply repoIssuePipelineMap_bound in Hv. lia. }
  destruct (lookup_lt_is_Some_2 _ _ Hk) as [rp Hrp].
  exists k, rp. split_and!; [done| |].
  - rewrite (classify_lookup _ _ _ _ _ Hrps Hrp).
    apply list_elem_of_filter. split; [|done].
    unfold routedTo. rewrite Hpr, bool_decide_eq_true_2; done.
  - intros k' rp' Hrp' Hin.
    rewrite (classify_lookup _ _ _ _ _ Hrps Hrp') in Hin.
    apply list_elem_of_filter in Hin as [Hr _].
    unfold routedTo in Hr. rewrite Hpr in Hr. simpl in Hr.
    apply bool_decide_unpack in Hr. done.
Qed.

End Stages.

(** * Properties of the report, by component *)

(** C6: Index last-wins.  The index is built in one pass over the entries in
    board order: the index of the empty board is empty, the index of a board
    extended by a pipeline is the index of the board after the writes of that
    pipeline at its 0-based position, and each write inserts at the key of the
    entry, replacing what was there.  Distinct identities have distinct keys
    and every key of the index is the key of an identity, so the index has at
    most one entry per identity; an identity is mapped to [idx] exactly when
    pipeline [idx] holds it and no later pipeline does, and is absent exactly
    when no pipeline holds it. *)
Theorem index_last_wins (b : Board) :
  repoIssuePipelineMap {| pipelines := [] |} = ∅
  ∧ (∀ ps p,
       repoIssuePipelineMap {| pipelines := ps ++ [p] |}
       = recordPipeline (length ps) (pipelineIssues p)
           (repoIssuePipelineMap {| pipelines := ps |}))
  ∧ (∀ idx m, recordPipeline idx [] m = m)
  ∧ (∀ idx es e m,
       recordPipeline idx (es ++ [e]) m
       = <[pipelineKey (ref_repo_id e) (issue_number e) := idx]>
           (recordPipeline idx es m))
  ∧ (∀ r n r' n', pipelineKey r n = pipelineKey r' n' → r = r' ∧ n = n')
  ∧ (∀ k idx, repoIssuePipelineMap b !! k = Some idx →
       ∃ r n, k = pipelineKey r n)
  ∧ (∀ r n idx,
       repoIssuePipelineMap b !! pipelineKey r n = Some idx
       ↔ (∃ p, pipelines b !! idx = Some p
               ∧ {| ref_repo_id := r; issue_number := n |} ∈ pipelineIssues p)
         ∧ ∀ j p', idx < j → pipelines b !! j = Some p' →
             {| ref_repo_id := r; issue_number := n |} ∉ pipelineIssues p')
  ∧ (∀ r n,
       repoIssuePipelineMap b !! pipelineKey r n = None
       ↔ ∀ p, p ∈ pipelines b →
           {| ref_repo_id := r; issue_number := n |} ∉ pipelineIssues p).
Proof.
  split_and!.
  - done.
  - intros ps p. unfold repoIssuePipelineMap. simpl.
    by rewrite mapPipelines_snoc.
  - done.
  - intros idx es e m. apply recordPipeline_snoc.
  - apply pipelineKey_inj.
  - intros k idx Hk. unfold repoIssuePipelineMap in Hk.
    apply mapPipelines_lookup in Hk as [(p & _ & Hin) _].
    apply list_elem_of_fmap in Hin as (e & -> & _).
    by exists (ref_repo_id e), (issue_number e).
  - intros r n idx. unfold repoIssuePipelineMap.
    rewrite mapPipelines_lookup. unfold lastHolder.
    by setoid_rewrite keyOf_elem.
  - intros r n. unfold repoIssuePipelineMap.
    rewrite mapPipelines_lookup_None. by setoid_rewrite keyOf_elem.
Qed.

(** C8: Synthetic Closed stage.  The stages handed to the aggregation, before
    and after the issues are classified, are one stage per declared pipeline,
    in board order and under the declared names, followed by one stage named
    "Closed"; nothing in this depends on the declared names. *)
Theorem synthetic_closed_stage (b : Board) (l : list issue) :
  richPipelines b
  = ((λ p, {| name := pipeline_name p; issues := [] |}) <$> pipelines b)
      ++ [{| name := "Closed"; issues := [] |}]
  ∧ ∃ rps, classify b l = Some rps
      ∧ name <$> rps = (pipeline_name <$> pipelines b) ++ ["Closed"]
      ∧ length rps = S (length (pipelines b)).
Proof.
  split; [apply richPipelines_eq|].
  destruct (classify_total b l) as [rps Hrps]. exists rps.
  eauto using classify_names, classify_length.
Qed.

(** A board that declares "Closed" and "Done" still gets the appended stage. *)
Example example_declared_closed :
  name <$> richPipelines Sample.closing = ["Closed"; "Done"; "Closed"].
Proof. reflexivity. Qed.

(** C1: Exhaustive partition.  The classification of any board and any
    collection of issues returns; each issue of the input that is not a pull
    request is in the list of one stage and of no other; the lists of all
    stages together are, up to order, the issues of the input that are not
    pull requests, each as often as the input has it; and classifying one
    more such issue pushes it to the list of a single stage. *)
Theorem exhaustive_partition (b : Board) (l : list issue) :
  ∃ rps, classify b l = Some rps
    ∧ (∀ i, i ∈ l → pull_request i = false →
         ∃ k, (∃ rp, rps !! k = Some rp ∧ i ∈ issues rp)
              ∧ ∀ k' rp', rps !! k' = Some rp' → i ∈ issues rp' → k' = k)
    ∧ concat (issues <$> rps) ≡ₚ filter (λ i, negb (pull_request i)) l
    ∧ (∀ i, pull_request i = false →
         ∃ k rp, rps !! k = Some rp
                 ∧ classify b (l ++ [i]) = Some (<[k := push rp i]> rps)).
Proof.
  destruct (retained_issue_stage b l) as (rps & Hrps & Hstage).
  exists rps. split_and!; [done|..].
  - intros i Hi Hpr. destruct (Hstage i Hi Hpr) as (k & rp & Hrp & Hin & Hu).
    exists k. split; [by exists rp | done].
  - unfold classify in Hrps. apply classifyAll_perm in Hrps.
    by rewrite richPipelines_empty in Hrps.
  - intros i Hpr. rewrite (classifyIssue_step _ _ _ _ Hrps Hpr).
    set (k := stageOf _ _ i).
    assert (k < length rps) as Hk.
    { rewrite (classify_length _ _ _ Hrps). apply stageOf_lt.
      intros key v Hv. apply repoIssuePipelineMap_bound in Hv. lia. }
    destruct (lookup_lt_is_Some_2 _ _ Hk) as [rp Hrp].
    exists k, rp. split; [done|]. by apply pushAt_Some.
Qed.

Lemma pushAt_appendedAt (k : nat) (i : issue) (rps : list richPipeline)
    (rp : richPipeline) :
  rps !! k = Some rp →
  pushAt k i rps = Some (<[k := push rp i]> rps)
  ∧ appendedAt rps (<[k := push rp i]> rps) k i.
Proof.
  intros Hrp. split; [by apply pushAt_Some|].
  pose proof (lookup_lt_Some _ _ _ Hrp) as Hk.
  split_and!.
  - apply length_insert.
  - exists rp, (push rp i). by rewrite list_lookup_insert_eq.
  - intros j Hj. by rewrite list_lookup_insert_ne.
Qed.

(** C2: Classification routing.  For an issue that is not a pull request,
    classified after any collection of issues: when the index has a position
    for its identity and its state is not "closed", it is appended to the
    list of the stage at that position, which has the name of the declared
    pipeline at that position; when the index has no position for it, or its
    state is "closed", it is appended to the list of the stage at position
    [P], the number of declared pipelines, and that stage is the one named
    "Closed".  In both cases the stage gets the issue after the issues it
    held and every other stage is left as it was. *)
Theorem classification_routing (b : Board) (l : list issue) (i : issue) :
  pull_request i = false →
  ∃ rps rps',
    classify b l = Some rps
    ∧ classify b (l ++ [i]) = Some rps'
    ∧ (∀ idx,
         repoIssuePipelineMap b !! pipelineKey (repo_id i) (number i) = Some idx →
         state i ≠ "closed" →
         (∃ rp p, rps !! idx = Some rp ∧ pipelines b !! idx = Some p
                  ∧ name rp = pipeline_name p)
         ∧ appendedAt rps rps' idx i)
    ∧ (repoIssuePipelineMap b !! pipelineKey (repo_id i) (number i) = None
       ∨ state i = "closed" →
         (∃ rp, rps !! length (pipelines b) = Some rp ∧ name rp = "Closed")
         ∧ appendedAt rps rps' (length (pipelines b)) i).
Proof.
  intros Hpr. destruct (classify_total b l) as [rps Hrps].
  pose proof (classify_names _ _ _ Hrps) as Hnames.
  pose proof (classify_length _ _ _ Hrps) as Hlen.
  pose proof (classifyIssue_step _ _ _ _ Hrps Hpr) as Hstep.
  set (k := stageOf (repoIssuePipelineMap b) (length (pipelines b)) i) in *.
  assert (k < length rps) as Hk.
  { rewrite Hlen. apply stageOf_lt.
    intros key v Hv. apply repoIssuePipelineMap_bound in Hv. lia. }
  destruct (lookup_lt_is_Some_2 _ _ Hk) as [rpk Hrpk].
  destruct (pushAt_appendedAt k i rps rpk Hrpk) as [Hpush Happ].
  exists rps, (<[k := push rpk i]> rps).
  split_and!; [done|by rewrite Hstep|..].
  - intros idx Hidx Hst.
    assert (k = idx) as <-.
    { unfold k, stageOf. by rewrite Hidx, bool_decide_eq_true_2. }
    split; [|done].
    apply repoIssuePipelineMap_bound in Hidx.
    destruct (lookup_lt_is_Some_2 (pipelines b) k) as [p Hp]; [lia|].
    exists rpk, p. split_and!; [done..|].
    apply (f_equal (λ ns, ns !! k)) in Hnames.
    rewrite list_lookup_fmap, Hrpk, lookup_app_l in Hnames
      by (by rewrite length_fmap).
    rewrite list_lookup_fmap, Hp in Hnames. by simplify_eq/=.
  - intros Hcase.
    assert (k = length (pipelines b)) as Hkp.
    { unfold k, stageOf. destruct Hcase as [-> | Hst]; [done|].
      rewrite bool_decide_eq_false_2 by (intros H; by apply H).
      by destruct (repoIssuePipelineMap b !! _). }
    rewrite <-Hkp. split; [|done].
    exists rpk. split; [done|].
    apply (f_equal (λ ns, ns !! k)) in Hnames.
    rewrite list_lookup_fmap, Hrpk, Hkp in Hnames.
    rewrite list_lookup_middle in Hnames by (by rewrite length_fmap).
    by simplify_eq/=.
Qed.

(** The theorem at the example of the specification, once in each case:
    issue A, open and declared in "In Progress", classified after issue B,
    is appended to the stage at position 0; issue B, closed and declared in
    "Done", classified after issue A, is appended to the stage at position 2,
    the number of declared pipelines. *)
Lemma classification_routing_witness :
  (∃ rps rps',
     classify Sample.board [Sample.issueB] = Some rps
     ∧ classify Sample.board ([Sample.issueB] ++ [Sample.issueA]) = Some rps'
     ∧ appendedAt rps rps' 0 Sample.issueA)
  ∧ (∃ rps rps',
       classify Sample.board [Sample.issueA] = Some rps
       ∧ classify Sample.board ([Sample.issueA] ++ [Sample.issueB]) = Some rps'
       ∧ appendedAt rps rps' 2 Sample.issueB).
Proof.
  split.
  - destruct (classification_routing Sample.board [Sample.issueB]
                Sample.issueA eq_refl)
      as (rps & rps' & Hrps & Hrps' & Hidx & _).
    exists rps, rps'. split_and!; [done..|].
    apply (Hidx 0); [vm_compute; reflexivity | discriminate].
  - destruct (classification_routing Sample.board [Sample.issueA]
                Sample.issueB eq_refl)
      as (rps & rps' & Hrps & Hrps' & _ & Hclosed).
    exists rps, rps'. split_and!; [done..|].
    apply Hclosed. right. reflexivity.
Defined.

(** The routing of the three issues of the example of the specification. *)
Example example_routing :
  fmap (M := list) issues
    <$> classify Sample.board [Sample.issueA; Sample.issueB; Sample.issueC]
  = Some [[Sample.issueA]; []; [Sample.issueB; Sample.issueC]].
Proof. vm_compute. reflexivity. Qed.

(** ** Pull requests *)

Lemma classifyAll_retained (m : gmap string nat) (rps : list richPipeline)
    (l : list issue) :
  classifyAll m rps l = classifyAll m rps (retained l).
Proof.
  revert rps. unfold retained. induction l as [|i l IH]; intros rps; [done|].
  destruct (pull_request i) eqn:Hpr.
  - rewrite filter_cons_False by (rewrite Hpr; simpl; tauto).
    simpl. rewrite classifyIssue_pull_request by done. apply IH.
  - rewrite filter_cons_True by (rewrite Hpr; done).
    simpl. destruct (classifyIssue m rps i); [apply IH | done].
Qed.

(** C7: Pull request exclusion.  The stages, and with them the whole report
    (sections, stage totals and the line of totals), are those of the input
    with its pull requests removed; classifying a pull request changes no
    stage; and no list of a stage contains a pull request. *)
Theorem pull_request_exclusion (b : Board) (l : list issue)
    (currentMilestone : string) :
  classify b l = classify b (filter (λ i, negb (pull_request i)) l)
  ∧ main b l currentMilestone
    = main b (filter (λ i, negb (pull_request i)) l) currentMilestone
  ∧ (∀ i, pull_request i = true → classify b (l ++ [i]) = classify b l)
  ∧ ∃ rps, classify b l = Some rps
      ∧ ∀ rp i, rp ∈ rps → pull_request i = true → i ∉ issues rp.
Proof.
  assert (classify b l = classify b (retained l)) as Heq
    by apply classifyAll_retained.
  split_and!.
  - done.
  - unfold main. fold (retained l). by rewrite Heq.
  - intros i Hpr. unfold classify. rewrite classifyAll_app.
    destruct (classifyAll _ _ l) as [rps|]; [|done].
    simpl. by rewrite classifyIssue_pull_request.
  - destruct (classify_total b l) as [rps Hrps]. exists rps.
    split; [done|]. intros rp i Hrp Hpr Hin.
    apply list_elem_of_lookup in Hrp as [k Hk].
    rewrite (classify_lookup _ _ _ _ _ Hrps Hk) in Hin.
    apply list_elem_of_filter in Hin as [Hr _].
    unfold routedTo in Hr. by rewrite Hpr in Hr.
Qed.

(** A pull request declared on the board leaves the report as it is. *)
Example example_pull_request :
  main Sample.board [Sample.issueA; Sample.issuePR; Sample.issueB] "v1"
  = main Sample.board [Sample.issueA; Sample.issueB] "v1".
Proof. vm_compute. reflexivity. Qed.

(** C10: Order preservation.  The list of every stage is the input with the
    issues routed elsewhere (and the pull requests) left out, so it lists its
    issues in the order of the input; the milestone issues of the stage, which
    the body of the report lists one after the other, are in turn the list of
    the stage, and the input, with issues left out. *)
Theorem order_preservation (b : Board) (l : list issue)
    (currentMilestone : string) :
  ∃ rps, classify b l = Some rps
    ∧ ∀ k rp, rps !! k = Some rp →
        issues rp
        = filter (λ i, routedTo (repoIssuePipelineMap b)
                         (length (pipelines b)) k i) l
        ∧ issues rp `sublist_of` l
        ∧ milestoneIssues currentMilestone (issues rp)
          = filter (λ i, inMilestone currentMilestone i
                         ∧ routedTo (repoIssuePipelineMap b)
                             (length (pipelines b)) k i) l
        ∧ milestoneIssues currentMilestone (issues rp) `sublist_of` issues rp
        ∧ milestoneIssues currentMilestone (issues rp) `sublist_of` l.
Proof.
  destruct (classify_total b l) as [rps Hrps]. exists rps.
  split; [done|]. intros k rp Hrp.
  pose proof (classify_lookup _ _ _ _ _ Hrps Hrp) as Heq.
  assert (issues rp `sublist_of` l) as Hsub
    by (rewrite Heq; apply sublist_filter).
  assert (milestoneIssues currentMilestone (issues rp) `sublist_of` issues rp)
    as Hsub' by apply sublist_filter.
  split_and!; [done..| |done|by etrans].
  unfold milestoneIssues. rewrite Heq. apply list_filter_filter.
Qed.

(** Whole-number stage totals whose magnitudes add up to less than
    [2 ^ 53] are accumulated without rounding. *)
Lemma reportAll_whole (currentMilestone : string) (rps : list richPipeline)
    (zs : list Z) :
  Js.ToNumber ∘ stageTotal currentMilestone <$> rps = Js.ofZ <$> zs →
  (sumAbs zs < 2 ^ 53)%Z →
  ∃ o c : Z,
    open (reportAll currentMilestone rps).1 = Js.ofZ o
    ∧ closed (reportAll currentMilestone rps).1 = Js.ofZ c
    ∧ (o + c = sumZ zs)%Z
    ∧ (Z.abs o + Z.abs c <= sumAbs zs)%Z.
Proof.
  revert zs. induction rps as [|rp rps IH] using rev_ind; intros zs Hzs Hb.
  - exists 0%Z, 0%Z. destruct zs; [|done].
    split_and!; done.
  - rewrite fmap_app in Hzs. symmetry in Hzs.
    apply fmap_app_inv in Hzs as (zs1 & zs2 & Hz1 & Hz2 & ->).
    destruct zs2 as [|z [|??]]; try done.
    rewrite list_fmap_singleton in Hz2. injection Hz2 as Hz.
    rewrite sumAbs_app, sumZ_app in *.
    change (sumAbs [z]) with (Z.abs z + 0)%Z in *.
    change (sumZ [z]) with (z + 0)%Z.
    pose proof (sumAbs_nonneg zs1).
    destruct (IH zs1) as (o & c & Ho & Hc & Hoc & Habs); [done|lia|].
    rewrite reportAll_snoc.
    destruct (reportAll currentMilestone rps) as [stats out].
    rewrite reportPipeline_stats. simpl in Ho, Hc. simpl in Hz.
    destruct (countsAsClosed (name rp)); simpl.
    + exists o, (c + z)%Z. rewrite Hc, Hz, add_ofZ by lia.
      split_and!; try done; lia.
    + exists (o + z)%Z, c. rewrite Ho, Hz, add_ofZ by lia.
      split_and!; try done; lia.
Qed.

(** C3, counterexample: with the stage totals 0.1, 0.2 (stage "Done") and
    0.6, [open] is 0.7 and [closed] is 0.2, and their sum is the double
    printed 0.8999999999999999, whereas the sum of the stage totals, from
    left to right or from right to left, is the double printed 0.9. *)
Lemma totals_consistency_counterexample :
  ∃ rps,
    classify Sample.fractions [Sample.issueG; Sample.issueH; Sample.issueK]
    = Some rps
    ∧ Js.ToString ∘ stageTotal "v1" <$> rps = ["0.1"; "0.2"; "0.6"; "0"]
    ∧ Js.add_number (open (reportAll "v1" rps).1)
                    (closed (reportAll "v1" rps).1)
      ≠ foldl Js.add_number (Js.ofZ 0)
              (Js.ToNumber ∘ stageTotal "v1" <$> rps)
    ∧ Js.add_number (open (reportAll "v1" rps).1)
                    (closed (reportAll "v1" rps).1)
      ≠ foldr Js.add_number (Js.ofZ 0)
              (Js.ToNumber ∘ stageTotal "v1" <$> rps)
    ∧ Js.number_to_string
        (Js.add_number (open (reportAll "v1" rps).1)
                       (closed (reportAll "v1" rps).1))
      = "0.8999999999999999"
    ∧ Js.number_to_string
        (foldl Js.add_number (Js.ofZ 0)
               (Js.ToNumber ∘ stageTotal "v1" <$> rps))
      = "0.9"
    ∧ main Sample.fractions
        [Sample.issueG; Sample.issueH; Sample.issueK] "v1"
      = Some [ "In Progress - 0.1 Points";
               "------------------------";
               "acme/app#20: G [0.1 pts]";
               "https://example.org/20";
               " ";
               "Done - 0.2 Points";
               "-----------------";
               "acme/app#21: H [0.2 pts]";
               "https://example.org/21";
               " ";
               "Review - 0.6 Points";
               "-------------------";
               "acme/app#22: K [0.6 pts]";
               "https://example.org/22";
               " ";
               "Closed - 0 Points";
               "-----------------";
               "None";
               " ";
               "Total: 0.7 / 0.8999999999999999" ].
Proof.
  eexists. split; [vm_compute; reflexivity|].
  split_and!; vm_compute; (reflexivity || discriminate).
Qed.

(** C3, as amended: totals by stage name.  For the stages of any board and
    issues, the report folds [reportPipeline] once over every stage;
    [closed] is the sum, accumulated from [0] in the order of the stages, of
    the totals of the stages named "Done" or "Closed", and [open] that of the
    other stages, a total that is [undefined] counting as [NaN] and one that
    is [null] as [0].  When the totals of the stages are whole numbers whose
    magnitudes add up to less than [2 ^ 53], no addition rounds: [open],
    [closed] and [open + closed] are whole numbers and [open + closed] is the
    sum of the totals of all stages. *)
Theorem totals_by_stage_name (b : Board) (l : list issue)
    (currentMilestone : string) :
  ∃ rps, classify b l = Some rps
    ∧ length rps = S (length (pipelines b))
    ∧ main b l currentMilestone
      = Some ((reportAll currentMilestone rps).2
                ++ [totalLine (reportAll currentMilestone rps).1])
    ∧ closed (reportAll currentMilestone rps).1
      = foldl Js.add_number (Js.ofZ 0)
          (Js.ToNumber ∘ stageTotal currentMilestone
             <$> filter (λ rp, name rp = "Done" ∨ name rp = "Closed") rps)
    ∧ open (reportAll currentMilestone rps).1
      = foldl Js.add_number (Js.ofZ 0)
          (Js.ToNumber ∘ stageTotal currentMilestone
             <$> filter (λ rp, ¬ (name rp = "Done" ∨ name rp = "Closed")) rps)
    ∧ ∀ zs : list Z,
        Js.ToNumber ∘ stageTotal currentMilestone <$> rps = Js.ofZ <$> zs →
        (sumAbs zs < 2 ^ 53)%Z →
        Js.add_number (open (reportAll currentMilestone rps).1)
                      (closed (reportAll currentMilestone rps).1)
        = Js.ofZ (sumZ zs)
        ∧ foldl Js.add_number (Js.ofZ 0)
                (Js.ToNumber ∘ stageTotal currentMilestone <$> rps)
          = Js.ofZ (sumZ zs)
        ∧ Js.number_to_string
            (Js.add_number (closed (reportAll currentMilestone rps).1)
                           (open (reportAll currentMilestone rps).1))
          = pretty (sumZ zs).
Proof.
  destruct (classify_total b l) as [rps Hrps]. exists rps.
  assert (∀ rp : richPipeline,
            countsAsClosed (name rp) ↔ name rp = "Done" ∨ name rp = "Closed")
    as Hc.
  { intros rp. unfold countsAsClosed.
    rewrite orb_True, !bool_decide_spec. done. }
  split_and!.
  - done.
  - by eapply classify_length.
  - by apply main_eq.
  - rewrite reportAll_closed. unfold sumNumbers. do 2 f_equal.
    apply list_filter_iff. intros rp. apply Hc.
  - rewrite reportAll_open. unfold sumNumbers. do 2 f_equal.
    apply list_filter_iff. intros rp. rewrite <-Hc.
    destruct (countsAsClosed (name rp)); simpl; tauto.
  - intros zs Hzs Hb.
    destruct (reportAll_whole _ _ _ Hzs Hb) as (o & c & Ho & Hcl & Hoc & Habs).
    pose proof (sumZ_abs zs).
    assert (Js.add_number (open (reportAll currentMilestone rps).1)
                          (closed (reportAll currentMilestone rps).1)
            = Js.ofZ (sumZ zs)) as Hsum.
    { rewrite Ho, Hcl, add_ofZ by lia. by rewrite Hoc. }
    split_and!; [done| |].
    + rewrite Hzs. by apply sumNumbers_ofZ.
    + rewrite add_number_comm, Hsum. apply number_to_string_ofZ. lia.
Qed.

(** The theorem at the example of the specification: the totals of the
    stages are 3, 0 and 7, and the second number of the last line is 10. *)
Lemma totals_by_stage_name_witness :
  ∃ rps,
    classify Sample.board [Sample.issueA; Sample.issueB; Sample.issueC]
    = Some rps
    ∧ Js.add_number (open (reportAll "v1" rps).1) (closed (reportAll "v1" rps).1)
      = Js.ofZ 10
    ∧ Js.number_to_string
        (Js.add_number (closed (reportAll "v1" rps).1)
                       (open (reportAll "v1" rps).1))
      = "10".
Proof.
  destruct (totals_by_stage_name Sample.board
              [Sample.issueA; Sample.issueB; Sample.issueC] "v1")
    as (rps & Hrps & _ & _ & _ & _ & Hwhole).
  exists rps. split; [done|].
  assert (Some rps
          = Some [ {| name := "In Progress"; issues := [Sample.issueA] |};
                   {| name := "Done"; issues := [] |};
                   {| name := "Closed";
                      issues := [Sample.issueB; Sample.issueC] |} ]) as Heq.
  { rewrite <-Hrps. vm_compute. reflexivity. }
  injection Heq as ->.
  destruct (Hwhole [3; 0; 7]%Z) as (Hsum & _ & Hstr).
  - vm_compute. reflexivity.
  - vm_compute. reflexivity.
  - split; [exact Hsum | exact Hstr].
Defined.

(** The totals of the example of the specification. *)
Example example_totals :
  (reportAll "v1"
     [ {| name := "In Progress"; issues := [Sample.issueA] |};
       {| name := "Done"; issues := [] |};
       {| name := "Closed"; issues := [Sample.issueB; Sample.issueC] |} ]).1
  = {| open := Js.ofZ 3; closed := Js.ofZ 7 |}.
Proof. vm_compute. reflexivity. Qed.

(** ** The milestone filter and the totals *)

Lemma inMilestone_spec (currentMilestone : string) (i : issue) :
  inMilestone currentMilestone i
  ↔ ∃ ms, milestone i = Some ms ∧ milestone_title ms = currentMilestone.
Proof.
  unfold inMilestone. destruct (milestone i) as [ms|].
  - rewrite bool_decide_spec. naive_solver.
  - naive_solver.
Qed.

(** C4: Milestone filter.  An issue of a list is kept by the filter exactly
    when it has a milestone whose title is the configured title, character
    for character.  An issue without milestone changes neither the filtered
    list nor the total of its stage: they are those of the list without it.
    Such an issue of the input, when it is not a pull request, is all the
    same in the list of a stage. *)
Theorem milestone_filter (b : Board) (l : list issue)
    (currentMilestone : string) :
  (∀ xs i,
     i ∈ milestoneIssues currentMilestone xs
     ↔ i ∈ xs ∧ ∃ ms, milestone i = Some ms
                      ∧ milestone_title ms = currentMilestone)
  ∧ (∀ xs ys i nm, milestone i = None →
       milestoneIssues currentMilestone (xs ++ i :: ys)
       = milestoneIssues currentMilestone (xs ++ ys)
       ∧ stageTotal currentMilestone {| name := nm; issues := xs ++ i :: ys |}
         = stageTotal currentMilestone {| name := nm; issues := xs ++ ys |})
  ∧ ∃ rps, classify b l = Some rps
      ∧ ∀ i, i ∈ l → pull_request i = false → milestone i = None →
          ∃ k rp, rps !! k = Some rp
                  ∧ i ∈ issues rp
                  ∧ i ∉ milestoneIssues currentMilestone (issues rp).
Proof.
  assert (∀ xs i,
            i ∈ milestoneIssues currentMilestone xs
            ↔ i ∈ xs ∧ ∃ ms, milestone i = Some ms
                             ∧ milestone_title ms = currentMilestone) as Hin.
  { intros xs i. unfold milestoneIssues.
    rewrite list_elem_of_filter, inMilestone_spec. tauto. }
  assert (∀ xs ys i, milestone i = None →
            milestoneIssues currentMilestone (xs ++ i :: ys)
            = milestoneIssues currentMilestone (xs ++ ys)) as Hdrop.
  { intros xs ys i Hi. unfold milestoneIssues. rewrite !filter_app.
    rewrite filter_cons_False; [done|].
    rewrite inMilestone_spec. intros (ms & Hms & _). congruence. }
  split_and!; [done| |].
  - intros xs ys i nm Hi. split; [by apply Hdrop|].
    unfold stageTotal. simpl. by rewrite Hdrop.
  - destruct (retained_issue_stage b l) as (rps & Hrps & Hstage).
    exists rps. split; [done|]. intros i Hi Hpr Hms.
    destruct (Hstage i Hi Hpr) as (k & rp & Hrp & Hin' & _).
    exists k, rp. split_and!; [done..|].
    rewrite Hin. intros (_ & ms & Hms' & _). congruence.
Qed.

(** The comparison of titles neither folds case nor trims. *)
Example example_exact_title :
  milestoneIssues "v1"
    [ Sample.issueA;
      Sample.mkIssue 20 "G" "open" false
        (Some {| milestone_title := "V1" |}) Js.Null None;
      Sample.mkIssue 21 "H" "open" false
        (Some {| milestone_title := "v1 " |}) Js.Null None;
      Sample.issueF ]
  = [Sample.issueA].
Proof. vm_compute. reflexivity. Qed.

(** C9: Rendered report format.  The lines written for any board and issues
    are the sections of the stages, in the order of the stages, followed by
    the line "Total: {open} / {open + closed}".  The section of a stage is
    its header "{name} - {totalPoints} Points", an underline made of dashes
    only and as long as the header, the body (the line "None" when no issue
    of the stage is in the milestone, else for each such issue its line
    "{repoName}#{number}: {title} [{estimate} pts]{assigneeSuffix}" and then
    its URL), and a separator, which is a line holding one space.  A total
    or an estimate is printed as a template literal prints it: "undefined",
    "null", "NaN", the decimal digits of a whole number below [2 ^ 53] in
    magnitude, and for instance "0.5" for one half; the report of the example
    of the specification is spelled out. *)
Theorem report_format (b : Board) (l : list issue) (currentMilestone : string) :
  (∃ rps stats,
     classify b l = Some rps
     ∧ stats = (reportAll currentMilestone rps).1
     ∧ main b l currentMilestone
       = Some (concat (spec_section currentMilestone <$> rps)
                 ++ ["Total: " +:+ Js.ToString (Js.Number (open stats))
                       +:+ " / "
                       +:+ Js.ToString
                             (Js.Number
                                (Js.add_number (open stats) (closed stats)))])
     ∧ ∀ rp,
         let header :=
           name rp +:+ " - "
             +:+ Js.ToString (stageTotal currentMilestone rp) +:+ " Points" in
         ∃ underline,
           spec_section currentMilestone rp
           = [header; underline]
               ++ spec_body (milestoneIssues currentMilestone (issues rp))
               ++ [" "]
           ∧ String.length underline = String.length header
           ∧ dashes underline)
  ∧ spec_body [] = ["None"]
  ∧ (∀ i xs,
       spec_body (i :: xs)
       = [ repo_name i +:+ "#" +:+ pretty (number i) +:+ ": " +:+ title i
             +:+ " [" +:+ Js.ToString (estimate i) +:+ " pts]"
             +:+ match assignee i with
                 | Some a => " " +:+ login a
                 | None => ""
                 end;
           html_url i ]
         ++ match xs with [] => [] | _ => spec_body xs end)
  ∧ Js.ToString Js.Undefined = "undefined"
  ∧ Js.ToString Js.Null = "null"
  ∧ Js.ToString (Js.Number Js.NaN) = "NaN"
  ∧ (∀ z, (Z.abs z < 2 ^ 53)%Z → Js.ToString (Js.Number (Js.ofZ z)) = pretty z)
  ∧ Js.ToString (Js.Number (Js.div_number (Js.ofZ 1) (Js.ofZ 2))) = "0.5"
  ∧ main Sample.board [Sample.issueA; Sample.issueB; Sample.issueC] "v1"
    = Some [ "In Progress - 3 Points";
             "----------------------";
             "acme/app#10: A [3 pts]";
             "https://example.org/10";
             " ";
             "Done - 0 Points";
             "---------------";
             "None";
             " ";
             "Closed - 7 Points";
             "-----------------";
             "acme/app#11: B [5 pts] bob";
             "https://example.org/11";
             "acme/app#12: C [2 pts]";
             "https://example.org/12";
             " ";
             "Total: 3 / 10" ].
Proof.
  split_and!.
  - destruct (classify_total b l) as [rps Hrps].
    exists rps, (reportAll currentMilestone rps).1. split_and!; [done..| |].
    + rewrite (main_eq _ _ _ _ Hrps), reportAll_out. unfold totalLine.
      by rewrite (add_number_comm (closed _)).
    + intros rp header. eexists. split; [reflexivity|].
      split; [apply repeat_string_length | apply repeat_string_dashes].
  - done.
  - intros i [|j xs]; done.
  - done.
  - done.
  - done.
  - intros z Hz. by apply number_to_string_ofZ.
  - vm_compute. reflexivity.
  - vm_compute. reflexivity.
Qed.

(** The theorem at the whole number 7 and at the example of the
    specification. *)
Lemma report_format_witness :
  Js.ToString (Js.Number (Js.ofZ 7)) = pretty 7%Z
  ∧ main Sample.board [Sample.issueA; Sample.issueB; Sample.issueC] "v1"
    = Some [ "In Progress - 3 Points";
             "----------------------";
             "acme/app#10: A [3 pts]";
             "https://example.org/10";
             " ";
             "Done - 0 Points";
             "---------------";
             "None";
             " ";
             "Closed - 7 Points";
             "-----------------";
             "acme/app#11: B [5 pts] bob";
             "https://example.org/11";
             "acme/app#12: C [2 pts]";
             "https://example.org/12";
             " ";
             "Total: 3 / 10" ].
Proof.
  destruct (report_format Sample.board [] "v1")
    as (_ & _ & _ & _ & _ & _ & Hwhole & _ & Hexample).
  split; [|exact Hexample].
  apply (Hwhole 7%Z). reflexivity.
Defined.

(** The report of the example of the specification. *)
Example example_report :
  main Sample.board [Sample.issueA; Sample.issueB; Sample.issueC] "v1"
  = Some [ "In Progress - 3 Points";
           "----------------------";
           "acme/app#10: A [3 pts]";
           "https://example.org/10";
           " ";
           "Done - 0 Points";
           "---------------";
           "None";
           " ";
           "Closed - 7 Points";
           "-----------------";
           "acme/app#11: B [5 pts] bob";
           "https://example.org/11";
           "acme/app#12: C [2 pts]";
           "https://example.org/12";
           " ";
           "Total: 3 / 10" ].
Proof. vm_compute. reflexivity. Qed.

(** ** Missing estimates *)

Section Estimates.

Implicit Types (xs : list issue) (i : issue).

(** Every issue of a filtered list has its two lines in the body, whatever
    its estimate. *)
Lemma spec_body_lists xs i :
  i ∈ xs → spec_issueLine i ∈ spec_body xs ∧ html_url i ∈ spec_body xs.
Proof.
  intros Hi. unfold spec_body.
  destruct xs as [|j xs]; [by apply elem_of_nil in Hi|].
  split; apply list_elem_of_bind; exists i; set_solver.
Qed.

End Estimates.

(** C5: Default-zero for missing estimate, at an input where it fails.  A
    stage whose only milestone issue has no [estimate] field has the total
    [undefined], not [0]: its header reads "undefined Points" and the line of
    totals reads "Total: NaN / NaN".  When the estimate is [null] the total is
    [null] and the header reads "null Points".  The issue is listed in the
    body in both cases. *)
Theorem missing_estimate_total :
  stageTotal "v1" {| name := "Backlog"; issues := [Sample.issueD] |}
  = Js.Undefined
  ∧ main Sample.backlog [Sample.issueD] "v1"
    = Some [ "Backlog - undefined Points";
             "--------------------------";
             "acme/app#13: D [undefined pts]";
             "https://example.org/13";
             " ";
             "Closed - 0 Points";
             "-----------------";
             "None";
             " ";
             "Total: NaN / NaN" ]
  ∧ stageTotal "v1" {| name := "Backlog"; issues := [Sample.issueE] |}
    = Js.Null
  ∧ main Sample.backlogNull [Sample.issueE] "v1"
    = Some [ "Backlog - null Points";
             "---------------------";
             "acme/app#14: E [null pts]";
             "https://example.org/14";
             " ";
             "Closed - 0 Points";
             "-----------------";
             "None";
             " ";
             "Total: 0 / 0" ].
Proof. vm_compute. split_and!; reflexivity. Qed.

(** * Further properties of the classification *)

Section MoreStages.

Implicit Types (b : Board) (rps : list richPipeline) (l : list issue).

Lemma stageOf_declared (m : gmap string nat) (P k : nat) (i : issue) :
  (∀ key v, m !! key = Some v → v < P) → k < P →
  stageOf m P i = k
  ↔ m !! pipelineKey (repo_id i) (number i) = Some k ∧ state i ≠ "closed".
Proof.
  intros Hm Hk. unfold stageOf.
  destruct (m !! _) as [v|] eqn:Hv.
  - case_bool_decide as Hst.
    + split; [by intros -> | by intros [[= ->] _]].
    + split; [lia | by intros [_ ?]].
  - split; [lia | by intros [? _]].
Qed.

Lemma stageOf_closed (m : gmap string nat) (P : nat) (i : issue) :
  (∀ key v, m !! key = Some v → v < P) →
  stageOf m P i = P
  ↔ m !! pipelineKey (repo_id i) (number i) = None ∨ state i = "closed".
Proof.
  intros Hm. unfold stageOf.
  destruct (m !! _) as [v|] eqn:Hv.
  - apply Hm in Hv. case_bool_decide as Hst.
    + split; [lia | by intros [?|?]].
    + split; [|done]. intros _. right.
      by destruct (decide (state i = "closed")).
  - split; [by left | done].
Qed.

End MoreStages.

(** X1: classification distributes over the concatenation of two collections
    of issues: every stage of the whole holds the issues that the stage holds
    for the first collection, followed by those it holds for the second. *)
Theorem classify_app (b : Board) (l1 l2 : list issue) :
  ∃ r1 r2,
    classify b l1 = Some r1
    ∧ classify b l2 = Some r2
    ∧ classify b (l1 ++ l2)
      = Some (zip_with (λ rp1 rp2, {| name := name rp1;
                                      issues := issues rp1 ++ issues rp2 |})
                       r1 r2).
Proof.
  rewrite !classify_routed. do 2 eexists. split_and!; [done..|].
  f_equal. apply list_eq. intros k.
  rewrite lookup_zip_with, !list_lookup_imap.
  destruct (richPipelines b !! k) as [rp|]; simpl; [|done].
  by rewrite filter_app.
Qed.

(** X2: the issues listed under a declared pipeline.  An issue is in the
    stage of the pipeline at position [k] exactly when it is in the input, is
    not a pull request, its state is not "closed", the pipeline declares its
    identity and no later pipeline of the board does. *)
Theorem declared_stage_members (b : Board) (l : list issue) (k : nat)
    (p : pipeline) :
  pipelines b !! k = Some p →
  ∃ rps rp,
    classify b l = Some rps
    ∧ rps !! k = Some rp
    ∧ name rp = pipeline_name p
    ∧ ∀ i, i ∈ issues rp
        ↔ i ∈ l
          ∧ pull_request i = false
          ∧ state i ≠ "closed"
          ∧ {| ref_repo_id := repo_id i; issue_number := number i |}
              ∈ pipelineIssues p
          ∧ ∀ j p', k < j → pipelines b !! j = Some p' →
              {| ref_repo_id := repo_id i; issue_number := number i |}
                ∉ pipelineIssues p'.
Proof.
  intros Hp. destruct (classify_total b l) as [rps Hrps].
  pose proof (classify_length _ _ _ Hrps) as Hlen.
  pose proof (lookup_lt_Some _ _ _ Hp) as Hk.
  destruct (lookup_lt_is_Some_2 rps k) as [rp Hrp]; [lia|].
  exists rps, rp. split_and!; [done..| |].
  - pose proof (classify_names _ _ _ Hrps) as Hnames.
    apply (f_equal (λ ns, ns !! k)) in Hnames.
    rewrite list_lookup_fmap, Hrp, lookup_app_l in Hnames
      by (by rewrite length_fmap).
    rewrite list_lookup_fmap, Hp in Hnames. by simplify_eq/=.
  - intros i. rewrite (classify_lookup _ _ _ _ _ Hrps Hrp).
    rewrite list_elem_of_filter. unfold routedTo.
    rewrite andb_True, negb_True, Is_true_false, bool_decide_spec.
    rewrite stageOf_declared;
      [|intros key v Hv; by eapply repoIssuePipelineMap_bound|done].
    unfold repoIssuePipelineMap. rewrite mapPipelines_lookup.
    unfold lastHolder. setoid_rewrite keyOf_elem. rewrite Hp.
    split.
    + intros [(Hpr & ((q & [= <-] & Hq) & Hlast) & Hst) Hi]. done.
    + intros (Hi & Hpr & Hst & Hq & Hlast). split_and!; eauto.
Qed.

Lemma declared_stage_members_witness :
  ∃ rps rp,
    classify Sample.board [Sample.issueA; Sample.issueB] = Some rps
    ∧ rps !! 0 = Some rp
    ∧ name rp = "In Progress"
    ∧ ∀ i, i ∈ issues rp
        ↔ i ∈ [Sample.issueA; Sample.issueB]
          ∧ pull_request i = false
          ∧ state i ≠ "closed"
          ∧ {| ref_repo_id := repo_id i; issue_number := number i |}
              ∈ [Sample.entry 10; Sample.entry 15; Sample.entry 16]
          ∧ ∀ j p', 0 < j → pipelines Sample.board !! j = Some p' →
              {| ref_repo_id := repo_id i; issue_number := number i |}
                ∉ pipelineIssues p'.
Proof.
  apply (declared_stage_members Sample.board [Sample.issueA; Sample.issueB] 0
           {| pipeline_name := "In Progress";
              pipelineIssues :=
                [Sample.entry 10; Sample.entry 15; Sample.entry 16] |}).
  reflexivity.
Defined.

(** X3: the issues listed under the appended "Closed" stage.  An issue is in
    that stage exactly when it is in the input, is not a pull request, and
    either its state is "closed" or no pipeline of the board declares its
    identity. *)
Theorem closed_stage_members (b : Board) (l : list issue) :
  ∃ rps rp,
    classify b l = Some rps
    ∧ rps !! length (pipelines b) = Some rp
    ∧ name rp = "Closed"
    ∧ ∀ i, i ∈ issues rp
        ↔ i ∈ l
          ∧ pull_request i = false
          ∧ (state i = "closed"
             ∨ ∀ p, p ∈ pipelines b →
                 {| ref_repo_id := repo_id i; issue_number := number i |}
                   ∉ pipelineIssues p).
Proof.
  destruct (classify_total b l) as [rps Hrps].
  pose proof (classify_length _ _ _ Hrps) as Hlen.
  destruct (lookup_lt_is_Some_2 rps (length (pipelines b))) as [rp Hrp];
    [lia|].
  exists rps, rp. split_and!; [done..| |].
  - pose proof (classify_names _ _ _ Hrps) as Hnames.
    apply (f_equal (λ ns, ns !! length (pipelines b))) in Hnames.
    rewrite list_lookup_fmap, Hrp in Hnames.
    rewrite list_lookup_middle in Hnames by (by rewrite length_fmap).
    by simplify_eq/=.
  - intros i. rewrite (classify_lookup _ _ _ _ _ Hrps Hrp).
    rewrite list_elem_of_filter. unfold routedTo.
    rewrite andb_True, negb_True, Is_true_false, bool_decide_spec.
    rewrite stageOf_closed
      by (intros key v Hv; by eapply repoIssuePipelineMap_bound).
    unfold repoIssuePipelineMap. rewrite mapPipelines_lookup_None.
    setoid_rewrite keyOf_elem. tauto.
Qed.

(** X12: with a board without pipelines the only stage is "Closed", and it
    holds every issue of the input that is not a pull request, in the order
    of the input. *)
Theorem classify_empty_board (l : list issue) :
  classify {| pipelines := [] |} l
  = Some [{| name := "Closed";
             issues := filter (λ i, negb (pull_request i)) l |}].
Proof.
  rewrite classify_routed. simpl. do 3 f_equal.
  apply list_filter_iff. intros i. unfold routedTo, stageOf.
  change (repoIssuePipelineMap {| pipelines := [] |}) with (∅ : gmap string nat).
  rewrite lookup_empty, andb_True, bool_decide_spec. tauto.
Qed.

(** * Further properties of the report *)

Lemma filter_none {A : Type} (P : A → Prop) `{!∀ x, Decision (P x)}
    (l : list A) :
  (∀ x, x ∈ l → ¬ P x) → filter P l = [].
Proof.
  induction l as [|x l IH]; intros Hall; [done|].
  rewrite filter_cons_False by (apply Hall; left).
  apply IH. intros y Hy. apply Hall. by right.
Qed.

Section MoreReport.

Variable currentMilestone : string.

Implicit Types (b : Board) (rps : list richPipeline) (l : list issue).

(** The callback reads a stage through its name and its milestone issues. *)
Lemma reportPipeline_ext (st : Stats * list string) (rp rp' : richPipeline) :
  name rp = name rp' →
  milestoneIssues currentMilestone (issues rp)
  = milestoneIssues currentMilestone (issues rp') →
  reportPipeline currentMilestone st rp = reportPipeline currentMilestone st rp'.
Proof.
  intros Hn Hm. unfold reportPipeline. destruct st as [stats out].
  by rewrite Hn, Hm.
Qed.

Lemma reportAll_ext rps rps' :
  Forall2 (λ rp rp', name rp = name rp'
                     ∧ milestoneIssues currentMilestone (issues rp)
                       = milestoneIssues currentMilestone (issues rp'))
          rps rps' →
  reportAll currentMilestone rps = reportAll currentMilestone rps'.
Proof.
  unfold reportAll. generalize (initialStats, @nil string).
  intros st H. revert st.
  induction H as [|rp rp' rps rps' [Hn Hm] _ IH]; intros st; simpl; [done|].
  by rewrite (reportPipeline_ext st rp rp'), IH.
Qed.

(** The stages of two inputs with, stage by stage, the same milestone
    issues give the same report. *)
Lemma main_ext b l l' :
  (∀ k, filter (λ i, inMilestone currentMilestone i
                     ∧ routedTo (repoIssuePipelineMap b)
                         (length (pipelines b)) k i) l
        = filter (λ i, inMilestone currentMilestone i
                       ∧ routedTo (repoIssuePipelineMap b)
                           (length (pipelines b)) k i) l') →
  main b l currentMilestone = main b l' currentMilestone.
Proof.
  intros H.
  rewrite (main_eq _ b l _ (classify_routed b l)).
  rewrite (main_eq _ b l' _ (classify_routed b l')).
  erewrite reportAll_ext; [done|].
  apply Forall2_same_length_lookup. split; [by rewrite !length_imap|].
  intros k rp rp'. rewrite !list_lookup_imap.
  destruct (richPipelines b !! k) as [rp0|]; simpl; [|done].
  intros [= <-] [= <-]. split; [done|]. simpl.
  unfold milestoneIssues. rewrite !list_filter_filter. apply H.
Qed.

(** A stage without milestone issues leaves the statistics as they are and
    logs a section with "0 Points" and "None". *)
Lemma reportAll_none rps :
  Forall (λ rp, milestoneIssues currentMilestone (issues rp) = []) rps →
  reportAll currentMilestone rps
  = (initialStats,
     (name <$> rps) ≫= λ nm,
       [ nm +:+ " - 0 Points";
         repeat_string "-" (String.length (nm +:+ " - 0 Points"));
         "None"; " " ]).
Proof.
  induction rps as [|rp rps IH] using rev_ind; intros H; [done|].
  apply Forall_app in H as [Hrps Hrp]. apply Forall_inv in Hrp.
  rewrite reportAll_snoc, IH by done.
  unfold reportPipeline. rewrite Hrp.
  rewrite fmap_app, bind_app. simpl.
  rewrite <-!app_assoc. simpl.
  destruct (countsAsClosed (name rp)); reflexivity.
Qed.

End MoreReport.

(** X4: the report is that of the milestone issues of the input: issues
    without milestone, or with another milestone, change no line of it. *)
Theorem report_of_milestone_issues (b : Board) (l : list issue)
    (currentMilestone : string) :
  main b l currentMilestone
  = main b (milestoneIssues currentMilestone l) currentMilestone.
Proof.
  apply main_ext. intros k. unfold milestoneIssues.
  rewrite list_filter_filter. apply list_filter_iff. intros i. tauto.
Qed.

(** X5: when every issue of the input is a pull request or is outside the
    milestone (in particular when there is no issue), the report has, for
    each declared pipeline in board order and then for "Closed", the header
    with "0 Points", its underline, "None" and the separator, and ends with
    "Total: 0 / 0". *)
Theorem report_without_milestone_issues (b : Board) (l : list issue)
    (currentMilestone : string) :
  (∀ i, i ∈ l → pull_request i = true ∨ inMilestone currentMilestone i = false) →
  main b l currentMilestone
  = Some ((((pipeline_name <$> pipelines b) ++ ["Closed"]) ≫= λ nm,
             [ nm +:+ " - 0 Points";
               repeat_string "-" (String.length (nm +:+ " - 0 Points"));
               "None"; " " ])
            ++ ["Total: 0 / 0"]).
Proof.
  intros H. destruct (classify_total b l) as [rps Hrps].
  rewrite (main_eq _ _ _ _ Hrps), reportAll_none.
  - simpl. by rewrite (classify_names _ _ _ Hrps).
  - apply Forall_lookup. intros k rp Hrp.
    rewrite (classify_lookup _ _ _ _ _ Hrps Hrp).
    unfold milestoneIssues. rewrite list_filter_filter.
    apply filter_none. intros i Hi [Hm Hr].
    unfold routedTo in Hr. apply andb_True in Hr as [Hpr _].
    destruct (H i Hi) as [Hc|Hc]; rewrite Hc in *; done.
Qed.

Lemma report_without_milestone_issues_witness :
  main Sample.board [Sample.issuePR; Sample.issueF] "v1"
  = Some ((((pipeline_name <$> pipelines Sample.board) ++ ["Closed"]) ≫= λ nm,
             [ nm +:+ " - 0 Points";
               repeat_string "-" (String.length (nm +:+ " - 0 Points"));
               "None"; " " ])
            ++ ["Total: 0 / 0"]).
Proof.
  apply (report_without_milestone_issues Sample.board
           [Sample.issuePR; Sample.issueF] "v1").
  intros i Hi. apply list_elem_of_In in Hi. simpl in Hi.
  destruct Hi as [<-|[<-|[]]]; [left | right]; reflexivity.
Defined.

(** * Further properties of the totals *)

Section MoreTotals.

Context {A : Type} (iteratee : A → Js.value).

Implicit Types (r : Js.value) (xs ys : list A).

(** One round of the loop of [baseSum]. *)
Local Abbreviation sumStep r x :=
  (match iteratee x with
   | Js.Undefined => r
   | _ => match r with
          | Js.Undefined => iteratee x
          | _ => Js.add r (iteratee x)
          end
   end).

Lemma baseSumFrom_cons r x xs :
  baseSumFrom iteratee r (x :: xs) = baseSumFrom iteratee (sumStep r x) xs.
Proof. done. Qed.

Lemma baseSumFrom_undefined r xs :
  baseSumFrom iteratee r xs = Js.Undefined
  ↔ r = Js.Undefined ∧ Forall (λ x, iteratee x = Js.Undefined) xs.
Proof.
  revert r. induction xs as [|x xs IH]; intros r.
  - simpl. split; [by intros -> | by intros [-> _]].
  - rewrite baseSumFrom_cons, IH, Forall_cons.
    destruct (iteratee x) as [| |n], r as [| |m]; unfold Js.add; naive_solver.
Qed.

Lemma sumBy_undefined xs :
  sumBy xs iteratee = Js.Undefined
  ↔ xs ≠ [] ∧ Forall (λ x, iteratee x = Js.Undefined) xs.
Proof.
  destruct xs as [|x xs]; [naive_solver|].
  unfold sumBy, baseSum. rewrite baseSumFrom_undefined. naive_solver.
Qed.

End MoreTotals.


Section StageTotals.

Variable currentMilestone : string.

Implicit Types (b : Board) (rps : list richPipeline) (l : list issue).

Lemma stage_total_undefined_iff (rp : richPipeline) :
  stageTotal currentMilestone rp = Js.Undefined
  ↔ milestoneIssues currentMilestone (issues rp) ≠ []
    ∧ ∀ i, i ∈ milestoneIssues currentMilestone (issues rp) →
           estimate i = Js.Undefined.
Proof.
  unfold stageTotal. rewrite sumBy_undefined, Forall_forall. done.
Qed.

End StageTotals.

(** ** Whole-number estimates *)

Section WholeEstimates.

Variable points : issue → Z.

Implicit Types (r : Js.value) (xs ys : list issue) (i : issue).

Local Open Scope Z_scope.

Lemma sumAbs_filter (P : issue → Prop) `{!∀ i, Decision (P i)} xs :
  sumAbs (points <$> filter P xs) <= sumAbs (points <$> xs).
Proof.
  induction xs as [|i xs IH]; [done|].
  rewrite filter_cons. destruct (decide (P i)); rewrite ?fmap_cons;
    change (sumAbs (?z :: ?zs)) with (Z.abs z + sumAbs zs); lia.
Qed.


(** The loop of [baseSum] from a result that is [null] or a whole number. *)
Lemma baseSumFrom_whole r z xs :
  r ≠ Js.Undefined → Js.ToNumber r = Js.ofZ z →
  Forall (wholeEstimate points) xs →
  Z.abs z + sumAbs (points <$> xs) < 2 ^ 53 →
  Js.ToNumber (baseSumFrom estimate r xs) = Js.ofZ (z + sumZ (points <$> xs))
  ∧ ((∃ n, r = Js.Number n) ∨ Exists (λ i, estimate i ≠ Js.Undefined) xs →
     ∃ n, baseSumFrom estimate r xs = Js.Number n).
Proof.
  intros Hr Hz Hxs. revert r z Hr Hz.
  induction Hxs as [|i xs Hi _ IH]; intros r z Hr Hz Hb.
  - simpl. rewrite Z.add_0_r. split; [done|].
    intros [Hn|Hn]; [done | by apply Exists_nil in Hn].
  - rewrite fmap_cons in *.
    change (sumAbs (?w :: ?ws)) with (Z.abs w + sumAbs ws) in Hb.
    change (sumZ (?w :: ?ws)) with (w + sumZ ws).
    pose proof (sumAbs_nonneg (points <$> xs)).
    rewrite baseSumFrom_cons.
    destruct Hi as [[Hi Hp]|[[Hi Hp]|Hi]]; rewrite Hi.
    + (* no estimate: the result is kept *)
      rewrite Hp. destruct (IH r z) as [IH1 IH2]; [done|done|lia|].
      split; [by rewrite IH1|].
      intros [Hn|Hn]; apply IH2; [by left|].
      apply Exists_cons in Hn as [Hn|Hn]; [by rewrite Hi in Hn | by right].
    + (* [null]: zero is added *)
      rewrite Hp.
      assert (Js.add r Js.Null = Js.Number (Js.ofZ (z + 0))) as Hadd.
      { unfold Js.add. rewrite Hz. f_equal. apply (add_ofZ z 0); lia. }
      assert ((match r with
               | Js.Undefined => Js.Null
               | _ => Js.add r Js.Null
               end) = Js.Number (Js.ofZ (z + 0))) as ->.
      { by destruct r. }
      destruct (IH (Js.Number (Js.ofZ (z + 0))) (z + 0)) as [IH1 IH2];
        [done|done|lia|].
      split; [rewrite IH1; f_equal; lia|].
      intros _. apply IH2. left. by eexists.
    + (* a whole number: it is added, without rounding *)
      assert (Js.add r (Js.Number (Js.ofZ (points i)))
              = Js.Number (Js.ofZ (z + points i))) as Hadd.
      { unfold Js.add. rewrite Hz. f_equal. apply add_ofZ; lia. }
      assert ((match r with
               | Js.Undefined => Js.Number (Js.ofZ (points i))
               | _ => Js.add r (Js.Number (Js.ofZ (points i)))
               end) = Js.Number (Js.ofZ (z + points i))) as ->.
      { by destruct r. }
      destruct (IH (Js.Number (Js.ofZ (z + points i))) (z + points i))
        as [IH1 IH2]; [done|done|lia|].
      split; [rewrite IH1; f_equal; lia|].
      intros _. apply IH2. left. by eexists.
Qed.

(** The total of a list with an estimate that is not absent. *)
Lemma baseSum_whole xs :
  Forall (wholeEstimate points) xs →
  sumAbs (points <$> xs) < 2 ^ 53 →
  Exists (λ i, estimate i ≠ Js.Undefined) xs →
  Js.ToNumber (baseSumFrom estimate Js.Undefined xs)
  = Js.ofZ (sumZ (points <$> xs))
  ∧ (Exists (λ i, ∃ n, estimate i = Js.Number n) xs →
     ∃ n, baseSumFrom estimate Js.Undefined xs = Js.Number n).
Proof.
  intros Hxs. induction Hxs as [|i xs Hi Hxs IH]; intros Hb Hex.
  - by apply Exists_nil in Hex.
  - rewrite fmap_cons in *.
    change (sumAbs (?w :: ?ws)) with (Z.abs w + sumAbs ws) in Hb.
    change (sumZ (?w :: ?ws)) with (w + sumZ ws).
    pose proof (sumAbs_nonneg (points <$> xs)).
    rewrite baseSumFrom_cons.
    destruct Hi as [[Hi Hp]|[[Hi Hp]|Hi]]; rewrite Hi.
    + rewrite Hp.
      apply Exists_cons in Hex as [Hex|Hex]; [by rewrite Hi in Hex|].
      destruct IH as [IH1 IH2]; [lia|done|].
      split; [by rewrite IH1|].
      intros Hn. apply IH2.
      apply Exists_cons in Hn as [[n Hn]|Hn]; [congruence | done].
    + rewrite Hp.
      destruct (baseSumFrom_whole Js.Null 0 xs) as [H1 H2]; [done..|lia|].
      split; [done|].
      intros Hn. apply H2. right.
      apply Exists_cons in Hn as [[n Hn]|Hn]; [congruence|].
      eapply Exists_impl; [done|]. intros j [n Hj]. by rewrite Hj.
    + destruct (baseSumFrom_whole (Js.Number (Js.ofZ (points i)))
                  (points i) xs) as [H1 H2]; [done..|lia|].
      split; [done|]. intros _. apply H2. left. by eexists.
Qed.

Lemma sumBy_whole xs :
  Forall (wholeEstimate points) xs →
  sumAbs (points <$> xs) < 2 ^ 53 →
  xs = [] ∨ Exists (λ i, estimate i ≠ Js.Undefined) xs →
  Js.ToNumber (sumBy xs estimate) = Js.ofZ (sumZ (points <$> xs)).
Proof.
  intros Hxs Hb [->|Hex]; [done|].
  destruct xs as [|i xs]; [by apply Exists_nil in Hex|].
  unfold sumBy, baseSum. by apply baseSum_whole.
Qed.

Lemma sumBy_whole_number xs :
  Forall (wholeEstimate points) xs →
  sumAbs (points <$> xs) < 2 ^ 53 →
  Exists (λ i, ∃ n, estimate i = Js.Number n) xs →
  sumBy xs estimate = Js.Number (Js.ofZ (sumZ (points <$> xs))).
Proof.
  intros Hxs Hb Hex.
  assert (Exists (λ i, estimate i ≠ Js.Undefined) xs) as Hdef.
  { eapply Exists_impl; [done|]. intros j [n Hj]. by rewrite Hj. }
  destruct xs as [|i xs]; [by apply Exists_nil in Hex|].
  unfold sumBy, baseSum.
  destruct (baseSum_whole (i :: xs)) as [H1 H2]; [done..|].
  destruct (H2 Hex) as [n Hn]. rewrite Hn in *. simpl in H1. by rewrite H1.
Qed.


End WholeEstimates.

Section WholeTotals.

Variable currentMilestone : string.

Implicit Types (b : Board) (rps : list richPipeline) (l : list issue).


Lemma sumNumbers_NaN (ns : list Js.number) :
  Js.NaN ∈ ns → sumNumbers ns = Js.NaN.
Proof.
  unfold sumNumbers. generalize (Js.ofZ 0).
  induction ns as [|n ns IH]; intros a Hin; [by apply elem_of_nil in Hin|].
  apply elem_of_cons in Hin as [<-|Hin]; cbn [foldl].
  - rewrite add_number_NaN_r. clear IH.
    induction ns as [|m ns IH]; [done|]. cbn [foldl].
    by rewrite add_number_NaN_l.
  - by apply IH.
Qed.

(** The milestone issues of the stage at position [k], read off the input. *)
Lemma classify_milestoneIssues b l rps k rp :
  classify b l = Some rps → rps !! k = Some rp →
  milestoneIssues currentMilestone (issues rp)
  = filter (λ i, routedTo (repoIssuePipelineMap b) (length (pipelines b)) k i)
           (milestoneIssues currentMilestone
              (filter (λ i, negb (pull_request i)) l)).
Proof.
  intros Hrps Hrp. rewrite (classify_lookup _ _ _ _ _ Hrps Hrp).
  unfold milestoneIssues. rewrite !list_filter_filter.
  apply list_filter_iff. intros i. unfold routedTo.
  rewrite andb_True. tauto.
Qed.

End WholeTotals.

(** X8: the total of a stage is [undefined] exactly when the stage has
    milestone issues and none of them has an [estimate] field. *)
Theorem stage_total_undefined (currentMilestone : string) (rp : richPipeline) :
  stageTotal currentMilestone rp = Js.Undefined
  ↔ milestoneIssues currentMilestone (issues rp) ≠ []
    ∧ ∀ i, i ∈ milestoneIssues currentMilestone (issues rp) →
           estimate i = Js.Undefined.
Proof. apply stage_total_undefined_iff. Qed.

Section Conservation.

Variable currentMilestone : string.
Variable points : issue → Z.

Implicit Types (b : Board) (rps : list richPipeline) (l : list issue).

Local Open Scope Z_scope.

Lemma milestoneIssues_concat (ls : list (list issue)) :
  milestoneIssues currentMilestone (concat ls)
  = concat (milestoneIssues currentMilestone <$> ls).
Proof.
  unfold milestoneIssues. induction ls as [|xs ls IH]; simpl; [done|].
  by rewrite filter_app, IH.
Qed.

Lemma sumZ_concat (xss : list (list issue)) :
  sumZ ((λ xs, sumZ (points <$> xs)) <$> xss) = sumZ (points <$> concat xss).
Proof.
  induction xss as [|xs xss IH]; [done|].
  rewrite fmap_cons. simpl concat. rewrite fmap_app, sumZ_app, <-IH. done.
Qed.

Lemma sumAbs_concat (xss : list (list issue)) :
  sumAbs ((λ xs, sumZ (points <$> xs)) <$> xss)
  <= sumAbs (points <$> concat xss).
Proof.
  induction xss as [|xs xss IH]; [done|].
  rewrite fmap_cons. simpl concat. rewrite fmap_app, sumAbs_app.
  change (sumAbs (?z :: ?zs)) with (Z.abs z + sumAbs zs).
  pose proof (sumZ_abs (points <$> xs)). lia.
Qed.

(** The milestone issues of all stages are those of the input. *)
Lemma classify_milestone_perm b l rps :
  classify b l = Some rps →
  concat ((λ rp, milestoneIssues currentMilestone (issues rp)) <$> rps)
  ≡ₚ milestoneIssues currentMilestone (filter (λ i, negb (pull_request i)) l).
Proof.
  intros Hrps. unfold classify in Hrps. apply classifyAll_perm in Hrps.
  rewrite richPipelines_empty in Hrps. simpl in Hrps.
  assert (concat ((λ rp, milestoneIssues currentMilestone (issues rp)) <$> rps)
          = milestoneIssues currentMilestone (concat (issues <$> rps))) as ->.
  { rewrite milestoneIssues_concat. f_equal.
    by rewrite <-list_fmap_compose. }
  unfold milestoneIssues. by apply filter_Permutation.
Qed.

End Conservation.

(** X6: conservation of points.  When the estimate of every issue that is
    in the milestone and is not a pull request is [null] or a whole number,
    and the magnitudes of these numbers add up to less than [2 ^ 53], no
    addition rounds: [open + closed] is the sum of the estimates of those
    issues, whatever the board, and the last line of the report shows its
    decimal digits after the slash. *)
Theorem points_conservation (b : Board) (l : list issue)
    (currentMilestone : string) (points : issue → Z) :
  (∀ i, i ∈ l → pull_request i = false → inMilestone currentMilestone i →
        (estimate i = Js.Null ∧ points i = 0%Z)
        ∨ estimate i = Js.Number (Js.ofZ (points i))) →
  (sumAbs (points <$> milestoneIssues currentMilestone
                        (filter (λ i, negb (pull_request i)) l)) < 2 ^ 53)%Z →
  ∃ rps, classify b l = Some rps
    ∧ Js.add_number (open (reportAll currentMilestone rps).1)
                    (closed (reportAll currentMilestone rps).1)
      = Js.ofZ (sumZ (points <$> milestoneIssues currentMilestone
                                   (filter (λ i, negb (pull_request i)) l)))
    ∧ ∃ out shown,
        main b l currentMilestone
        = Some (out ++ ["Total: " +:+ shown +:+ " / "
                          +:+ pretty (sumZ (points
                                <$> milestoneIssues currentMilestone
                                      (filter (λ i, negb (pull_request i)) l)))]).
Proof.
  intros Hest Hb. destruct (classify_total b l) as [rps Hrps]. exists rps.
  set (M := milestoneIssues currentMilestone
              (filter (λ i, negb (pull_request i)) l)) in *.
  set (mis := λ rp, milestoneIssues currentMilestone (issues rp)).
  set (zs := (λ xs, sumZ (points <$> xs)) <$> (mis <$> rps)).
  assert (concat (mis <$> rps) ≡ₚ M) as Hperm
    by (by eapply classify_milestone_perm).
  assert (sumZ zs = sumZ (points <$> M)) as HsumZ.
  { unfold zs. rewrite sumZ_concat. apply sumZ_perm. f_equiv. exact Hperm. }
  assert (sumAbs zs < 2 ^ 53)%Z as Hzs.
  { unfold zs. pose proof (sumAbs_concat points (mis <$> rps)) as Hle.
    assert (sumAbs (points <$> concat (mis <$> rps)) = sumAbs (points <$> M))
      as Heq by (apply sumAbs_perm; f_equiv; exact Hperm).
    lia. }
  assert (Js.ToNumber ∘ stageTotal currentMilestone <$> rps = Js.ofZ <$> zs)
    as Htot.
  { unfold zs. rewrite <-!list_fmap_compose.
    apply list_fmap_ext. intros k rp Hrp. simpl. unfold stageTotal.
    pose proof (classify_milestoneIssues currentMilestone _ _ _ _ _ Hrps Hrp)
      as Hmis. fold M in Hmis. fold (mis rp) in Hmis |- *.
    apply sumBy_whole.
    - apply Forall_forall. intros i Hi. rewrite Hmis in Hi.
      apply list_elem_of_filter in Hi as [_ Hi]. unfold M, milestoneIssues in Hi.
      apply list_elem_of_filter in Hi as [Hm Hi].
      apply list_elem_of_filter in Hi as [Hpr Hi].
      apply negb_True, Is_true_false in Hpr.
      destruct (Hest i Hi Hpr Hm) as [?|?]; [right; by left | by do 2 right].
    - rewrite Hmis. pose proof (sumAbs_filter points
        (λ i, routedTo (repoIssuePipelineMap b) (length (pipelines b)) k i) M).
      lia.
    - assert (∀ i, i ∈ mis rp → estimate i ≠ Js.Undefined) as Hdef.
      { intros i Hi. rewrite Hmis in Hi.
        apply list_elem_of_filter in Hi as [_ Hi].
        unfold M, milestoneIssues in Hi.
        apply list_elem_of_filter in Hi as [Hm Hi].
        apply list_elem_of_filter in Hi as [Hpr Hi].
        apply negb_True, Is_true_false in Hpr.
        destruct (Hest i Hi Hpr Hm) as [[-> _]| ->]; done. }
      destruct (mis rp) as [|i xs]; [by left|]. right.
      apply Exists_cons_hd, Hdef. left. }
  destruct (reportAll_whole _ _ _ Htot Hzs) as (o & c & Ho & Hc & Hoc & Habs).
  pose proof (sumZ_abs zs).
  assert (Js.add_number (open (reportAll currentMilestone rps).1)
                        (closed (reportAll currentMilestone rps).1)
          = Js.ofZ (sumZ (points <$> M))) as Hsum.
  { rewrite Ho, Hc, add_ofZ by lia. by rewrite Hoc, HsumZ. }
  split_and!; [done..|].
  rewrite (main_eq _ _ _ _ Hrps). unfold totalLine.
  rewrite add_number_comm, Hsum, number_to_string_ofZ by lia.
  by do 2 eexists.
Qed.

(** The theorem at issues A, E (estimate [null]), a pull request and C: the
    sum of the estimates is 5. *)
Lemma points_conservation_witness :
  ∃ rps,
    classify Sample.board
      [Sample.issueA; Sample.issueE; Sample.issuePR; Sample.issueC]
    = Some rps
    ∧ Js.add_number (open (reportAll "v1" rps).1)
                    (closed (reportAll "v1" rps).1)
      = Js.ofZ (sumZ (Sample.points
                        <$> milestoneIssues "v1"
                              (filter (λ i, negb (pull_request i))
                                 [Sample.issueA; Sample.issueE;
                                  Sample.issuePR; Sample.issueC])))
    ∧ ∃ out shown,
        main Sample.board
          [Sample.issueA; Sample.issueE; Sample.issuePR; Sample.issueC] "v1"
        = Some (out ++ ["Total: " +:+ shown +:+ " / "
                          +:+ pretty (sumZ (Sample.points
                                <$> milestoneIssues "v1"
                                      (filter (λ i, negb (pull_request i))
                                         [Sample.issueA; Sample.issueE;
                                          Sample.issuePR; Sample.issueC])))]).
Proof.
  apply (points_conservation Sample.board
           [Sample.issueA; Sample.issueE; Sample.issuePR; Sample.issueC] "v1"
           Sample.points).
  - intros i Hi Hpr _. apply list_elem_of_In in Hi. simpl in Hi.
    destruct Hi as [<-|[<-|[<-|[<-|[]]]]].
    + right. reflexivity.
    + left. split; reflexivity.
    + discriminate Hpr.
    + right. reflexivity.
  - vm_compute. reflexivity.
Defined.



(** X9: when some stage has milestone issues none of which has an
    [estimate] field, [closed + open] is [NaN] and the last line of the
    report ends with "/ NaN". *)
Theorem total_NaN (b : Board) (l : list issue) (currentMilestone : string)
    (rps : list richPipeline) (rp : richPipeline) :
  classify b l = Some rps →
  rp ∈ rps →
  milestoneIssues currentMilestone (issues rp) ≠ [] →
  (∀ i, i ∈ milestoneIssues currentMilestone (issues rp) →
        estimate i = Js.Undefined) →
  Js.add_number (closed (reportAll currentMilestone rps).1)
                (open (reportAll currentMilestone rps).1) = Js.NaN
  ∧ ∃ out shown,
      main b l currentMilestone
      = Some (out ++ ["Total: " +:+ shown +:+ " / NaN"]).
Proof.
  intros Hrps Hrp Hne Hu.
  assert (Js.ToNumber (stageTotal currentMilestone rp) = Js.NaN) as Ht.
  { assert (stageTotal currentMilestone rp = Js.Undefined) as ->; [|done].
    by apply stage_total_undefined_iff. }
  assert (Js.add_number (closed (reportAll currentMilestone rps).1)
                        (open (reportAll currentMilestone rps).1) = Js.NaN)
    as Hsum.
  { destruct (countsAsClosed (name rp)) eqn:Hc.
    - rewrite reportAll_closed, sumNumbers_NaN; [apply add_number_NaN_l|].
      apply list_elem_of_fmap. exists rp. split; [done|].
      apply list_elem_of_filter. by rewrite Hc.
    - rewrite reportAll_open, (sumNumbers_NaN (_ <$> filter _ rps));
        [apply add_number_NaN_r|].
      apply list_elem_of_fmap. exists rp. split; [done|].
      apply list_elem_of_filter. by rewrite Hc. }
  split; [done|].
  rewrite (main_eq _ _ _ _ Hrps). unfold totalLine. rewrite Hsum.
  by do 2 eexists.
Qed.

Lemma total_NaN_witness :
  Js.add_number
    (closed (reportAll "v1"
               [ {| name := "Backlog"; issues := [Sample.issueD] |};
                 {| name := "Closed"; issues := [] |} ]).1)
    (open (reportAll "v1"
             [ {| name := "Backlog"; issues := [Sample.issueD] |};
               {| name := "Closed"; issues := [] |} ]).1) = Js.NaN
  ∧ ∃ out shown,
      main Sample.backlog [Sample.issueD] "v1"
      = Some (out ++ ["Total: " +:+ shown +:+ " / NaN"]).
Proof.
  apply (total_NaN Sample.backlog [Sample.issueD] "v1"
           [ {| name := "Backlog"; issues := [Sample.issueD] |};
             {| name := "Closed"; issues := [] |} ]
           {| name := "Backlog"; issues := [Sample.issueD] |}).
  - vm_compute. reflexivity.
  - left.
  - vm_compute. discriminate.
  - intros i Hi. apply list_elem_of_In in Hi. vm_compute in Hi.
    destruct Hi as [<-|[]]. reflexivity.
Defined.

(** X14: when the estimates of the milestone issues of a stage are absent,
    [null] or whole numbers whose magnitudes add up to less than [2 ^ 53],
    and one of them at least is a number, the total of the stage is the sum
    of the numbers, absent and [null] estimates counting as [0], and the
    header shows its decimal digits. *)
Theorem stage_total_with_number (currentMilestone : string)
    (rp : richPipeline) (points : issue → Z) :
  (∀ i, i ∈ milestoneIssues currentMilestone (issues rp) →
        (estimate i = Js.Undefined ∧ points i = 0%Z)
        ∨ (estimate i = Js.Null ∧ points i = 0%Z)
        ∨ estimate i = Js.Number (Js.ofZ (points i))) →
  (sumAbs (points <$> milestoneIssues currentMilestone (issues rp))
   < 2 ^ 53)%Z →
  (∃ i n, i ∈ milestoneIssues currentMilestone (issues rp)
          ∧ estimate i = Js.Number n) →
  stageTotal currentMilestone rp
  = Js.Number
      (Js.ofZ (sumZ (points <$> milestoneIssues currentMilestone (issues rp))))
  ∧ Js.ToString (stageTotal currentMilestone rp)
    = pretty (sumZ (points <$> milestoneIssues currentMilestone (issues rp))).
Proof.
  intros Hall Hb (i & n & Hi & Hn).
  assert (stageTotal currentMilestone rp
          = Js.Number
              (Js.ofZ (sumZ (points
                 <$> milestoneIssues currentMilestone (issues rp))))) as Ht.
  { apply sumBy_whole_number; [by apply Forall_forall|done|].
    apply Exists_exists. exists i. split; [done | by exists n]. }
  split; [done|]. rewrite Ht. simpl.
  apply number_to_string_ofZ.
  pose proof (sumZ_abs (points <$> milestoneIssues currentMilestone (issues rp))).
  lia.
Qed.

Lemma stage_total_with_number_witness :
  stageTotal "v1"
    {| name := "In Progress";
       issues := [Sample.issueD; Sample.issueA; Sample.issueE;
                  Sample.issueF] |}
  = Js.Number
      (Js.ofZ (sumZ (Sample.points
                       <$> milestoneIssues "v1"
                             [Sample.issueD; Sample.issueA; Sample.issueE;
                              Sample.issueF])))
  ∧ Js.ToString
      (stageTotal "v1"
         {| name := "In Progress";
            issues := [Sample.issueD; Sample.issueA; Sample.issueE;
                       Sample.issueF] |})
    = pretty (sumZ (Sample.points
                      <$> milestoneIssues "v1"
                            [Sample.issueD; Sample.issueA; Sample.issueE;
                             Sample.issueF])).
Proof.
  apply (stage_total_with_number "v1"
           {| name := "In Progress";
              issues := [Sample.issueD; Sample.issueA; Sample.issueE;
                         Sample.issueF] |}
           Sample.points).
  - intros i Hi. apply list_elem_of_In in Hi. vm_compute in Hi.
    destruct Hi as [<-|[<-|[<-|[]]]].
    + left. split; reflexivity.
    + do 2 right. reflexivity.
    + right. left. split; reflexivity.
  - vm_compute. reflexivity.
  - exists Sample.issueA, (Js.ofZ 3). split; [|reflexivity].
    apply list_elem_of_In. vm_compute. auto.
Defined.

(** * The keys of the index and the inherited properties *)

(** X13: a key of the index always contains a dot, so it is different from
    every string without dot, such as the names of the properties an object
    inherits ("constructor", "toString", "__proto__", ...): reading the
    index at the key of an issue never finds an inherited property. *)
Theorem pipelineKey_not_dotless (r n : N) (s : string) :
  dotless s → pipelineKey r n ≠ s.
Proof.
  intros Hs <-. unfold pipelineKey in Hs.
  induction (pretty r) as [|c t IH]; simpl in Hs.
  - by destruct Hs as [Hs _].
  - destruct Hs as [_ Hs]. by apply IH.
Qed.

Lemma pipelineKey_not_dotless_witness : pipelineKey 1 10 ≠ "constructor".
Proof.
  apply (pipelineKey_not_dotless 1 10 "constructor").
  simpl. repeat split; discriminate.
Defined.

(** * The issues of all repositories *)

(** X10: [getAllZenhubIssues] is rejected exactly when the request for one
    repository of the workspace is; when it is fulfilled its value is the
    answers of the repositories one after the other, in the order of
    [workspace.repos], a repository listed twice giving its issues twice. *)
Theorem getAllZenhubIssues_spec (getZenhubIssues : N → option (list issue))
    (workspace : Workspace) :
  (getAllZenhubIssues getZenhubIssues workspace = None
   ↔ ∃ d, d ∈ repos workspace ∧ getZenhubIssues (details_repo_id d) = None)
  ∧ ∀ allIssues,
      getAllZenhubIssues getZenhubIssues workspace = Some allIssues →
      allIssues
      = repos workspace
          ≫= λ d, default [] (getZenhubIssues (details_repo_id d)).
Proof.
  unfold getAllZenhubIssues. split.
  - destruct (mapM _ _) as [rs|] eqn:Hm.
    + split; [done|]. intros (d & Hd & Hnone).
      assert (mapM (λ d, getZenhubIssues (details_repo_id d))
                   (repos workspace) = None) as Hn.
      { apply mapM_None, Exists_exists. by exists d. }
      congruence.
    + split; [|done]. intros _. apply mapM_None, Exists_exists in Hm. done.
  - intros allIssues. destruct (mapM _ _) as [rs|] eqn:Hm; [|done].
    intros [= <-]. apply mapM_Some_1 in Hm.
    induction Hm as [|d r ds rs Hd _ IH]; [done|].
    simpl. by rewrite Hd, IH.
Qed.

(** X15: the whole run over a workspace.  When the requests are fulfilled,
    the stages of the flattened issues hold, for each repository in the order
    of the workspace, the issues of its answer routed to the stage. *)
Theorem classify_workspace (b : Board)
    (getZenhubIssues : N → option (list issue)) (workspace : Workspace)
    (allIssues : list issue) :
  getAllZenhubIssues getZenhubIssues workspace = Some allIssues →
  ∃ rps, classify b allIssues = Some rps
    ∧ ∀ k rp, rps !! k = Some rp →
        issues rp
        = repos workspace ≫= λ d,
            filter (λ i, routedTo (repoIssuePipelineMap b)
                           (length (pipelines b)) k i)
                   (default [] (getZenhubIssues (details_repo_id d))).
Proof.
  intros Hall. destruct (classify_total b allIssues) as [rps Hrps].
  exists rps. split; [done|]. intros k rp Hrp.
  rewrite (classify_lookup _ _ _ _ _ Hrps Hrp).
  unfold getAllZenhubIssues in Hall.
  destruct (mapM _ _) as [rs|] eqn:Hm; [|done].
  injection Hall as <-. apply mapM_Some_1 in Hm. clear Hrps Hrp.
  induction Hm as [|d r ds rs Hd _ IH]; [done|].
  cbn [concat]. rewrite bind_cons, filter_app, Hd, IH. done.
Qed.

Lemma classify_workspace_witness :
  ∃ rps,
    classify Sample.board [Sample.issueA; Sample.issueB; Sample.issueC]
    = Some rps
    ∧ ∀ k rp, rps !! k = Some rp →
        issues rp
        = [ {| details_repo_id := 1 |}; {| details_repo_id := 2 |} ] ≫= λ d,
            filter (λ i, routedTo (repoIssuePipelineMap Sample.board)
                           (length (pipelines Sample.board)) k i)
                   (default []
                      (if N.eqb (details_repo_id d) 1
                       then Some [Sample.issueA; Sample.issueB]
                       else Some [Sample.issueC])).
Proof.
  apply (classify_workspace Sample.board
           (λ id, if N.eqb id 1
                  then Some [Sample.issueA; Sample.issueB]
                  else Some [Sample.issueC])
           {| repos := [ {| details_repo_id := 1 |};
                         {| details_repo_id := 2 |} ] |}
           [Sample.issueA; Sample.issueB; Sample.issueC]).
  reflexivity.
Defined.

(** * The headers of a GitHub request *)

(** X11: the headers sent to GitHub always carry [authorization], which
    replaces one of the previous context; its value is "Bearer " followed by
    the token when the token is set and not empty, and empty otherwise; every
    other header of the previous context is kept, and no header is added;
    applying the link to its own result changes nothing. *)
Theorem authHeaders_spec (githubToken : option string)
    (headers : option (gmap string string)) :
  (∀ t, githubToken = Some t → t ≠ "" →
        authHeaders githubToken headers !! "authorization"
        = Some ("Bearer " +:+ t))
  ∧ (githubToken = None ∨ githubToken = Some "" →
       authHeaders githubToken headers !! "authorization" = Some "")
  ∧ (∀ k, k ≠ "authorization" →
          authHeaders githubToken headers !! k = default ∅ headers !! k)
  ∧ authHeaders githubToken (Some (authHeaders githubToken headers))
    = authHeaders githubToken headers.
Proof.
  unfold authHeaders. split_and!.
  - intros t -> Ht. rewrite lookup_insert_eq. by rewrite decide_False.
  - intros [->| ->]; by rewrite lookup_insert_eq.
  - intros k Hk. by rewrite lookup_insert_ne.
  - simpl. by rewrite insert_insert_eq.
Qed.
